(** * fetch-app: the two cache-backed fetch hooks

    A shallow embedding of [src/hooks/useFetchWithObject.ts] (the hook backed
    by the module-level [cache] object of [App.tsx]) and of
    [src/hooks/useFetchWithIndexedDb.ts] (the hook backed by the localForage
    instance of [useDb.ts]).

    Each hook is modelled as a transition system.  One hook instance owns a
    reducer state and the [cancelRequest] ref; an [async] run of [fetchData]
    is an operation that is suspended at each [await] and resumed by an event
    carrying what the awaited promise settled with.  Everything the code does
    that a consumer or a collaborator can see is appended to a trace. *)

From Stdlib Require Import ZArith.
From stdpp Require Import gmap strings list fin_maps.

(** ** Values *)

(** What [response.json()] can produce.  Numbers are kept integral: every
    fractional number is truthy, like a non-zero integer. *)
#[local] Unset Elimination Schemes.
Inductive Json : Type :=
| JNull
| JBool (b : bool)
| JNum (n : Z)
| JStr (s : string)
| JArr (items : list Json)
| JObj (fields : list (string * Json)).
#[local] Set Elimination Schemes.

(** JavaScript's ToBoolean on such a value: [null], [false], [0] and the
    empty string are falsy, every array and object is truthy. *)
Definition truthy (v : Json) : bool :=
  match v with
  | JNull => false
  | JBool b => b
  | JNum n => negb (n =? 0)%Z
  | JStr EmptyString => false
  | JStr (String _ _) => true
  | JArr _ => true
  | JObj _ => true
  end.

(** [if (x)] on the result of a lookup: an absent key reads as [undefined]
    (object cache) or [null] (localForage), both falsy. *)
Definition truthy_lookup (o : option Json) : option Json :=
  match o with
  | Some v => if truthy v then Some v else None
  | None => None
  end.

(** [!url]: [undefined] and the empty string are falsy. *)
Definition truthy_url (url : option string) : option string :=
  match url with
  | Some EmptyString => None
  | Some u => Some u
  | None => None
  end.

(** A thrown or rejected [Error], identified by its message. *)
Record Error : Type := MkError { message : string }.

(** ** Reducer state and actions *)

Record State : Type := MkState {
  data : option Json;
  error : option Error;
  isLoading : option bool
}.

Inductive Action : Type :=
| act_loading
| act_fetched (payload : Json)
| act_error (payload : Error).

(** Object spread with one overridden field. *)
Definition with_data (d : option Json) (s : State) : State :=
  {| data := d; error := error s; isLoading := isLoading s |}.
Definition with_error (e : option Error) (s : State) : State :=
  {| data := data s; error := e; isLoading := isLoading s |}.
Definition with_isLoading (l : option bool) (s : State) : State :=
  {| data := data s; error := error s; isLoading := l |}.

(** ** What a run leaves behind *)

Inductive Obs : Type :=
| Dispatch (op : nat) (a : Action)            (* dispatch(a) *)
| Transport (op : nat) (url : string)         (* fetch(url, options) *)
| CacheRead (op : nat) (url : string)         (* cache[url] / cacheDb.getItem(url) *)
| CacheWrite (op : nat) (url : string) (v : Json) (* cache[url] = v / cacheDb.setItem(url, v) *)
| Uncaught (op : nat) (e : Error).            (* fetchData()'s promise rejected *)

(** The actions dispatched along a trace, in order. *)
Definition action_of (o : Obs) : option Action :=
  match o with Dispatch _ a => Some a | _ => None end.
Definition dispatched (t : list Obs) : list Action := omap action_of t.

(** The operation an observation belongs to. *)
Definition obs_op (o : Obs) : nat :=
  match o with
  | Dispatch op _ | Transport op _ | CacheRead op _ | CacheWrite op _ _
  | Uncaught op _ => op
  end.

(** A reducer folded over a list of actions. *)
Definition reducer_run (reducer : State -> Action -> State) (s0 : State)
    (acts : list Action) : State := fold_left reducer acts s0.

(** At most one of [data] and [error] is populated. *)
Definition at_most_one (s : State) : Prop := data s = None \/ error s = None.

(** ** useFetchWithObject: the hook over the shared [cache] object *)

Module Volatile.

Definition initialState : State :=
  {| data := None; error := None; isLoading := None |}.

(** The [default] branch of the [switch] returns the state unchanged; no
    action of the [Action] type reaches it. *)
Definition fetchReducer (state : State) (action : Action) : State :=
  match action with
  | act_loading => with_isLoading (Some true) initialState
  | act_fetched payload =>
      with_isLoading (Some false) (with_data (Some payload) initialState)
  | act_error payload =>
      with_isLoading (Some false) (with_error (Some payload) initialState)
  end.

(** Where a suspended [fetchData] waits. *)
Inductive Stage : Type :=
| AwaitFetch        (* await fetch(url, options) *)
| AwaitJson.        (* await response.json() *)

(** The component's life: not yet mounted, mounted with the [url] of the
    last effect run and whether that run returned a cleanup function, or
    unmounted. *)
Inductive Phase : Type :=
| Fresh
| Mounted (url : option string) (cleanup : bool)
| Disposed.

Record World : Type := MkWorld {
  state : State;                          (* useReducer *)
  cancelRequest : bool;                   (* cancelRequest.current *)
  phase : Phase;
  cache : gmap string Json;               (* the object exported by App.tsx,
                                             by its own properties *)
  pending : gmap nat (string * Stage);    (* suspended fetchData runs *)
  next : nat;
  trace : list Obs
}.

Definition init (c : gmap string Json) : World :=
  {| state := initialState; cancelRequest := false; phase := Fresh;
     cache := c; pending := ∅; next := 0%nat; trace := [] |}.

Definition set_state (s : State) (w : World) : World :=
  MkWorld s (cancelRequest w) (phase w) (cache w) (pending w) (next w) (trace w).
Definition set_cancelRequest (b : bool) (w : World) : World :=
  MkWorld (state w) b (phase w) (cache w) (pending w) (next w) (trace w).
Definition set_phase (p : Phase) (w : World) : World :=
  MkWorld (state w) (cancelRequest w) p (cache w) (pending w) (next w) (trace w).
Definition set_cache (c : gmap string Json) (w : World) : World :=
  MkWorld (state w) (cancelRequest w) (phase w) c (pending w) (next w) (trace w).
Definition set_pending (p : gmap nat (string * Stage)) (w : World) : World :=
  MkWorld (state w) (cancelRequest w) (phase w) (cache w) p (next w) (trace w).
Definition set_next (n : nat) (w : World) : World :=
  MkWorld (state w) (cancelRequest w) (phase w) (cache w) (pending w) n (trace w).
Definition emit (o : Obs) (w : World) : World :=
  MkWorld (state w) (cancelRequest w) (phase w) (cache w) (pending w) (next w)
          (trace w ++ [o]).

Definition dispatch (op : nat) (a : Action) (w : World) : World :=
  emit (Dispatch op a) (set_state (fetchReducer (state w) a) w).

Definition suspend (op : nat) (url : string) (st : Stage) (w : World) : World :=
  set_pending (<[op := (url, st)]> (pending w)) w.
Definition finish (op : nat) (w : World) : World :=
  set_pending (delete op (pending w)) w.

(** The [catch] block. *)
Definition catch (op : nat) (e : Error) (w : World) : World :=
  finish op (if cancelRequest w then w else dispatch op (act_error e) w).

(** [fetchData()] up to its first [await]. *)
Definition fetchData (url : string) (w : World) : World :=
  let op := next w in
  let w := set_next (S op) w in
  let w := dispatch op act_loading w in
  let w := emit (CacheRead op url) w in
  match truthy_lookup (cache w !! url) with
  | Some v => dispatch op (act_fetched v) (emit (CacheRead op url) w)
  | None => suspend op url AwaitFetch (emit (Transport op url) w)
  end.

(** The body of [useEffect]; the phase records whether it returned the
    cleanup function. *)
Definition effect (url : option string) (w : World) : World :=
  match truthy_url url with
  | None => set_phase (Mounted url false) w
  | Some u =>
      set_phase (Mounted url true) (fetchData u (set_cancelRequest false w))
  end.

Definition run_cleanup (cleanup : bool) (w : World) : World :=
  if cleanup then set_cancelRequest true w else w.

Inductive Outcome : Type :=
| Response (ok : bool) (statusText : string)  (* fetch resolved *)
| FetchRejected (e : Error)                   (* fetch rejected *)
| Body (data : Json)                          (* response.json() resolved *)
| BodyRejected (e : Error).                   (* response.json() rejected *)

Inductive Event : Type :=
| Render (url : option string)   (* mount, or a render with this [url] *)
| Unmount
| Resolve (op : nat) (r : Outcome).

(** [fetchData] resumed after an [await]. *)
Definition resume (op : nat) (url : string) (st : Stage) (r : Outcome)
    (w : World) : option World :=
  match st, r with
  | AwaitFetch, Response true _ => Some (suspend op url AwaitJson w)
  | AwaitFetch, Response false statusText =>
      Some (catch op (MkError statusText) w)
  | AwaitFetch, FetchRejected e => Some (catch op e w)
  | AwaitJson, Body d =>
      let w := emit (CacheWrite op url d) (set_cache (<[url := d]> (cache w)) w) in
      Some (finish op (if cancelRequest w then w
                       else dispatch op (act_fetched d) w))
  | AwaitJson, BodyRejected e => Some (catch op e w)
  | _, _ => None
  end.

(** One event; [None] when the event cannot happen in this world. *)
Definition step (w : World) (ev : Event) : option World :=
  match ev with
  | Render url =>
      match phase w with
      | Fresh => Some (effect url w)
      | Mounted url0 cleanup =>
          if decide (url0 = url) then Some w
          else Some (effect url (run_cleanup cleanup w))
      | Disposed => None
      end
  | Unmount =>
      match phase w with
      | Mounted _ cleanup => Some (set_phase Disposed (run_cleanup cleanup w))
      | _ => None
      end
  | Resolve op r =>
      match pending w !! op with
      | Some (url, st) => resume op url st r w
      | None => None
      end
  end.

Fixpoint run (w : World) (evs : list Event) : option World :=
  match evs with
  | [] => Some w
  | ev :: evs' =>
      match step w ev with
      | Some w' => run w' evs'
      | None => None
      end
  end.

(** The worlds a hook instance can be in, over any initial cache. *)
Definition reachable (w : World) : Prop :=
  exists c evs, run (init c) evs = Some w.

(** Every suspended operation was started by an earlier effect run. *)
Definition wf (w : World) : Prop :=
  forall op, is_Some (pending w !! op) -> (op < next w)%nat.

(** While an operation is suspended, either the flag is already set or the
    last effect run left a cleanup function that will set it. *)
Definition armed (w : World) : Prop :=
  pending w = ∅ \/ cancelRequest w = true \/ exists u, phase w = Mounted u true.

(** [Render url] runs the effect: first mount, or [url] differs from the
    dependency of the last run. *)
Definition activates (w : World) (url : option string) : bool :=
  match phase w with
  | Fresh => true
  | Mounted url0 _ => negb (bool_decide (url0 = url))
  | Disposed => false
  end.

(** The effect run that started [op] has been cleaned up: the component is
    unmounted, or a later effect run has replaced it. *)
Definition superseded (op : nat) (w : World) : bool :=
  match phase w with
  | Fresh => false
  | Mounted url _ =>
      match truthy_url url with
      | Some _ => negb (S op =? next w)%nat
      | None => true
      end
  | Disposed => true
  end.

(** The world after a run from a fresh hook over the cache [c]; the fresh
    world itself when the events cannot happen in that order. *)
Definition after (c : gmap string Json) (evs : list Event) : World :=
  default (init c) (run (init c) evs).

End Volatile.

(** ** useFetchWithIndexedDb: the hook over the localForage store *)

Module Durable.

Definition initialState : State :=
  {| data := None; error := None; isLoading := Some false |}.

(** The [default] branch of the [switch] returns the state unchanged; no
    action of the [Action] type reaches it. *)
Definition fetchReducer (state : State) (action : Action) : State :=
  match action with
  | act_loading => initialState
  | act_fetched payload => with_data (Some payload) initialState
  | act_error payload => with_error (Some payload) initialState
  end.

(** Where a suspended [fetchData] waits. *)
Inductive Stage : Type :=
| AwaitGet                 (* await cacheDb.getItem(url) *)
| AwaitFetch               (* await fetch(url, options) *)
| AwaitJson                (* await response.json() *)
| AwaitSet (data : Json).  (* await cacheDb.setItem(url, data) *)

(** The effect of this hook returns its cleanup function on every run. *)
Inductive Phase : Type :=
| Fresh
| Mounted (url : string)
| Disposed.

Record World : Type := MkWorld {
  state : State;                          (* useReducer *)
  cancelRequest : bool;                   (* cancelRequest.current *)
  phase : Phase;
  store : gmap string Json;               (* the 'cache' store of 'fetch-app-db' *)
  pending : gmap nat (string * Stage);    (* suspended fetchData runs *)
  next : nat;
  trace : list Obs
}.

Definition init (c : gmap string Json) : World :=
  {| state := initialState; cancelRequest := false; phase := Fresh;
     store := c; pending := ∅; next := 0%nat; trace := [] |}.

Definition set_state (s : State) (w : World) : World :=
  MkWorld s (cancelRequest w) (phase w) (store w) (pending w) (next w) (trace w).
Definition set_cancelRequest (b : bool) (w : World) : World :=
  MkWorld (state w) b (phase w) (store w) (pending w) (next w) (trace w).
Definition set_phase (p : Phase) (w : World) : World :=
  MkWorld (state w) (cancelRequest w) p (store w) (pending w) (next w) (trace w).
Definition set_store (c : gmap string Json) (w : World) : World :=
  MkWorld (state w) (cancelRequest w) (phase w) c (pending w) (next w) (trace w).
Definition set_pending (p : gmap nat (string * Stage)) (w : World) : World :=
  MkWorld (state w) (cancelRequest w) (phase w) (store w) p (next w) (trace w).
Definition set_next (n : nat) (w : World) : World :=
  MkWorld (state w) (cancelRequest w) (phase w) (store w) (pending w) n (trace w).
Definition emit (o : Obs) (w : World) : World :=
  MkWorld (state w) (cancelRequest w) (phase w) (store w) (pending w) (next w)
          (trace w ++ [o]).

Definition dispatch (op : nat) (a : Action) (w : World) : World :=
  emit (Dispatch op a) (set_state (fetchReducer (state w) a) w).

Definition suspend (op : nat) (url : string) (st : Stage) (w : World) : World :=
  set_pending (<[op := (url, st)]> (pending w)) w.
Definition finish (op : nat) (w : World) : World :=
  set_pending (delete op (pending w)) w.

(** The [catch] block. *)
Definition catch (op : nat) (e : Error) (w : World) : World :=
  finish op (if cancelRequest w then w else dispatch op (act_error e) w).

(** [fetchData()] up to its first [await]. *)
Definition fetchData (url : string) (w : World) : World :=
  let op := next w in
  let w := set_next (S op) w in
  let w := dispatch op act_loading w in
  suspend op url AwaitGet (emit (CacheRead op url) w).

(** The body of [useEffect]. *)
Definition effect (url : string) (w : World) : World :=
  set_phase (Mounted url)
    match truthy_url (Some url) with
    | Some u => fetchData u (set_cancelRequest false w)
    | None => w
    end.

Definition run_cleanup (w : World) : World := set_cancelRequest true w.

Inductive Outcome : Type :=
| Got                                         (* getItem resolved *)
| GetRejected (e : Error)                     (* getItem rejected *)
| Response (ok : bool) (statusText : string)  (* fetch resolved *)
| FetchRejected (e : Error)                   (* fetch rejected *)
| Body (data : Json)                          (* response.json() resolved *)
| BodyRejected (e : Error)                    (* response.json() rejected *)
| Stored                                      (* setItem resolved *)
| SetRejected (e : Error).                    (* setItem rejected *)

Inductive Event : Type :=
| Render (url : string)   (* mount, or a render with this [url] *)
| Unmount
| Resolve (op : nat) (r : Outcome).

(** [fetchData] resumed after an [await].  [getItem] resolves with what the
    store holds at that moment and [setItem] resolves once the store holds the
    value; the first [await] stands before the [try]. *)
Definition resume (op : nat) (url : string) (st : Stage) (r : Outcome)
    (w : World) : option World :=
  match st, r with
  | AwaitGet, Got =>
      match truthy_lookup (store w !! url) with
      | Some cacheData => Some (finish op (dispatch op (act_fetched cacheData) w))
      | None => Some (suspend op url AwaitFetch (emit (Transport op url) w))
      end
  | AwaitGet, GetRejected e => Some (finish op (emit (Uncaught op e) w))
  | AwaitFetch, Response true _ => Some (suspend op url AwaitJson w)
  | AwaitFetch, Response false statusText =>
      Some (catch op (MkError statusText) w)
  | AwaitFetch, FetchRejected e => Some (catch op e w)
  | AwaitJson, Body d =>
      Some (suspend op url (AwaitSet d) (emit (CacheWrite op url d) w))
  | AwaitJson, BodyRejected e => Some (catch op e w)
  | AwaitSet d, Stored =>
      let w := set_store (<[url := d]> (store w)) w in
      Some (finish op (if cancelRequest w then w
                       else dispatch op (act_fetched d) w))
  | AwaitSet _, SetRejected e => Some (catch op e w)
  | _, _ => None
  end.

(** One event; [None] when the event cannot happen in this world. *)
Definition step (w : World) (ev : Event) : option World :=
  match ev with
  | Render url =>
      match phase w with
      | Fresh => Some (effect url w)
      | Mounted url0 =>
          if decide (url0 = url) then Some w
          else Some (effect url (run_cleanup w))
      | Disposed => None
      end
  | Unmount =>
      match phase w with
      | Mounted _ => Some (set_phase Disposed (run_cleanup w))
      | _ => None
      end
  | Resolve op r =>
      match pending w !! op with
      | Some (url, st) => resume op url st r w
      | None => None
      end
  end.

Fixpoint run (w : World) (evs : list Event) : option World :=
  match evs with
  | [] => Some w
  | ev :: evs' =>
      match step w ev with
      | Some w' => run w' evs'
      | None => None
      end
  end.

(** The worlds a hook instance can be in, over any initial store. *)
Definition reachable (w : World) : Prop :=
  exists c evs, run (init c) evs = Some w.

(** Every suspended operation was started by an earlier effect run. *)
Definition wf (w : World) : Prop :=
  forall op, is_Some (pending w !! op) -> (op < next w)%nat.

(** The cleanup of the last effect run has set the flag by the time the
    component is unmounted. *)
Definition disposed_cancelled (w : World) : Prop :=
  phase w = Disposed -> cancelRequest w = true.

(** A suspended [setItem] call has been logged with its arguments. *)
Definition set_logged (w : World) : Prop :=
  forall op url d, pending w !! op = Some (url, AwaitSet d) ->
                   In (CacheWrite op url d) (trace w).

(** [Render url] runs the effect: first mount, or [url] differs from the
    dependency of the last run. *)
Definition activates (w : World) (url : string) : bool :=
  match phase w with
  | Fresh => true
  | Mounted url0 => negb (bool_decide (url0 = url))
  | Disposed => false
  end.

(** The resolution of [getItem], the one [await] of [fetchData] that is
    followed by a dispatch without a look at [cancelRequest]. *)
Definition is_get_resolution (ev : Event) : bool :=
  match ev with
  | Resolve _ Got => true
  | _ => false
  end.

(** The world after a run from a fresh hook over the store [c]; the fresh
    world itself when the events cannot happen in that order. *)
Definition after (c : gmap string Json) (evs : list Event) : World :=
  default (init c) (run (init c) evs).

End Durable.

(** ** One operation in a trace *)

(** The actions one operation dispatched, in order. *)
Definition dispatch_of (op : nat) (o : Obs) : option Action :=
  match o with
  | Dispatch k a => if decide (k = op) then Some a else None
  | _ => None
  end.
Definition dispatches (op : nat) (t : list Obs) : list Action :=
  omap (dispatch_of op) t.

(** The Transport calls one operation made, by their url. *)
Definition transport_of (op : nat) (o : Obs) : option string :=
  match o with
  | Transport k u => if decide (k = op) then Some u else None
  | _ => None
  end.
Definition transports (op : nat) (t : list Obs) : list string :=
  omap (transport_of op) t.

(** What one run of [fetchData] may dispatch: ['loading'] first, then at
    most one of ['fetched'] and ['error']. *)
Definition lifecycle (acts : list Action) : bool :=
  match acts with
  | [act_loading] => true
  | [act_loading; act_fetched _] => true
  | [act_loading; act_error _] => true
  | _ => false
  end.

(** The state as the last dispatched action alone gives it. *)
Definition state_of_last (reducer : State -> Action -> State) (s0 : State)
    (acts : list Action) : State :=
  match last acts with
  | Some a => reducer s0 a
  | None => s0
  end.

(** Where an operation of the volatile hook stands in a world: not started,
    suspended after ['loading'] and one Transport call, or over. *)
Definition v_op_inv (k : nat) (w : Volatile.World) : Prop :=
  match Volatile.pending w !! k with
  | Some (u, _) =>
      (k < Volatile.next w)%nat /\
      dispatches k (Volatile.trace w) = [act_loading] /\
      transports k (Volatile.trace w) = [u]
  | None =>
      if decide (k < Volatile.next w)%nat
      then lifecycle (dispatches k (Volatile.trace w)) = true /\
           (length (transports k (Volatile.trace w)) <= 1)%nat
      else dispatches k (Volatile.trace w) = [] /\
           transports k (Volatile.trace w) = []
  end.

(** The same for the durable hook, whose Transport call comes after the
    read of the store. *)
Definition d_op_inv (k : nat) (w : Durable.World) : Prop :=
  match Durable.pending w !! k with
  | Some (u, st) =>
      (k < Durable.next w)%nat /\
      dispatches k (Durable.trace w) = [act_loading] /\
      transports k (Durable.trace w)
      = match st with Durable.AwaitGet => [] | _ => [u] end
  | None =>
      if decide (k < Durable.next w)%nat
      then lifecycle (dispatches k (Durable.trace w)) = true /\
           (length (transports k (Durable.trace w)) <= 1)%nat
      else dispatches k (Durable.trace w) = [] /\
           transports k (Durable.trace w) = []
  end.

(** The resolutions an operation can still take. *)
Definition v_stage_budget (st : Volatile.Stage) : nat :=
  match st with
  | Volatile.AwaitFetch => 2
  | Volatile.AwaitJson => 1
  end.
Definition v_budget (k : nat) (w : Volatile.World) : nat :=
  match Volatile.pending w !! k with
  | Some (_, st) => v_stage_budget st
  | None => if decide (k < Volatile.next w)%nat then 0 else 2
  end.
Definition d_stage_budget (st : Durable.Stage) : nat :=
  match st with
  | Durable.AwaitGet => 4
  | Durable.AwaitFetch => 3
  | Durable.AwaitJson => 2
  | Durable.AwaitSet _ => 1
  end.
Definition d_budget (k : nat) (w : Durable.World) : nat :=
  match Durable.pending w !! k with
  | Some (_, st) => d_stage_budget st
  | None => if decide (k < Durable.next w)%nat then 0 else 4
  end.

(** The resolutions of operation [k] among the events of a run. *)
Definition v_resolves (k : nat) (ev : Volatile.Event) : bool :=
  match ev with
  | Volatile.Resolve op _ => Nat.eqb op k
  | _ => false
  end.
Definition v_resolutions (k : nat) (evs : list Volatile.Event) : nat :=
  length (List.filter (v_resolves k) evs).
Definition d_resolves (k : nat) (ev : Durable.Event) : bool :=
  match ev with
  | Durable.Resolve op _ => Nat.eqb op k
  | _ => false
  end.
Definition d_resolutions (k : nat) (evs : list Durable.Event) : nat :=
  length (List.filter (d_resolves k) evs).

(** The identifier of the last effect run was empty or absent. *)
Definition v_cleared (w : Volatile.World) : bool :=
  match Volatile.phase w with
  | Volatile.Mounted url _ =>
      match truthy_url url with Some _ => false | None => true end
  | _ => false
  end.
Definition d_cleared (w : Durable.World) : bool :=
  match Durable.phase w with
  | Durable.Mounted url =>
      match truthy_url (Some url) with Some _ => false | None => true end
  | _ => false
  end.

(** ** useToggle *)

Module useToggle.

(** [useState<boolean>(!!defaultValue)]: an absent default is [false]. *)
Definition initial (defaultValue : option bool) : bool :=
  match defaultValue with
  | Some b => b
  | None => false
  end.

(** What a caller can do with the returned object: [toggle()], or
    [setIsExpanded] with a value or with an updater. *)
Inductive Call : Type :=
| toggle
| setIsExpanded (value : bool)
| setIsExpandedWith (updater : bool -> bool).

Definition call (isExpanded : bool) (c : Call) : bool :=
  match c with
  | toggle => negb isExpanded
  | setIsExpanded value => value
  | setIsExpandedWith updater => updater isExpanded
  end.

Definition run (defaultValue : option bool) (cs : list Call) : bool :=
  fold_left call cs (initial defaultValue).

End useToggle.

(** ** What the pages render *)

(** [obj[name]] on a parsed value: the last binding of [name] in an object,
    [undefined] on anything else. *)
Fixpoint assoc_last (name : string) (fields : list (string * Json))
    : option Json :=
  match fields with
  | [] => None
  | (k, v) :: rest =>
      match assoc_last name rest with
      | Some v' => Some v'
      | None => if decide (k = name) then Some v else None
      end
  end.
Definition field (name : string) (v : Json) : option Json :=
  match v with
  | JObj fields => assoc_last name fields
  | _ => None
  end.

(** [<li key={id}>{title}</li>] *)
Record Item : Type := MkItem { key : option Json; child : option Json }.

(** What React accepts as a child of [<li>]: a string or a number is shown,
    a boolean and [null] show nothing, an array is shown entry by entry, and
    an object makes the render throw ("Objects are not valid as a React
    child"). *)
Fixpoint valid_child (v : Json) : bool :=
  match v with
  | JObj _ => false
  | JArr vs => forallb valid_child vs
  | _ => true
  end.

(** The same for [{title}], which is [undefined] where the entry has no
    such field. *)
Definition valid_title (title : option Json) : bool :=
  match title with
  | Some v => valid_child v
  | None => true
  end.


(** The callback [({ id, title }) => <li key={id}>{title}</li>]: the
    destructuring throws on [null], and the item throws when it is rendered
    with a title React does not accept. *)
Definition item_of (v : Json) : option Item :=
  match v with
  | JNull => None
  | _ =>
      if valid_title (field "title" v)
      then Some {| key := field "id" v; child := field "title" v |}
      else None
  end.

Fixpoint items_of_list (vs : list Json) : option (list Item) :=
  match vs with
  | [] => Some []
  | v :: rest =>
      match item_of v with
      | Some item =>
          match items_of_list rest with
          | Some items => Some (item :: items)
          | None => None
          end
      | None => None
      end
  end.

(** [data?.map(...)] as it is rendered: nothing for [undefined] and [null],
    the mapped items for an array, and a TypeError for any other value, which
    has no [map] function. *)
Definition items_of (data : option Json) : option (list Item) :=
  match data with
  | None => Some []
  | Some JNull => Some []
  | Some (JArr vs) => items_of_list vs
  | Some _ => None
  end.

Inductive View : Type :=
| ErrorView                       (* <p>There is an error.</p> *)
| LoadingView                     (* <p>Loading...</p> *)
| ListView (items : list Item)    (* <ul>{data?.map(...)}</ul> *)
| RenderThrows.                   (* rendering the component throws *)

Definition truthy_data (data : option Json) : bool :=
  match data with
  | Some v => truthy v
  | None => false
  end.
Definition truthy_flag (b : option bool) : bool :=
  match b with
  | Some true => true
  | _ => false
  end.

Definition list_view (data : option Json) : View :=
  match items_of data with
  | Some items => ListView items
  | None => RenderThrows
  end.

(** [Posts] of [pages/posts.tsx], over the state its hook returned. *)
Definition Posts (s : State) : View :=
  match error s with
  | Some _ => ErrorView
  | None =>
      if negb (truthy_data (data s)) && truthy_flag (isLoading s)
      then LoadingView
      else list_view (data s)
  end.

(** [HomePage], over the state its hook returned; the list comes under the
    header. *)
Definition HomePage (s : State) : View :=
  match error s with
  | Some _ => ErrorView
  | None =>
      if negb (truthy_data (data s)) && truthy_flag (isLoading s)
      then LoadingView
      else list_view (data s)
  end.

(** The identifier both pages pass to their hook. *)
Definition posts_url : string := "http://jsonplaceholder.typicode.com/posts".

(** ** Simple: the page that fetches without a cache *)

Module Simple.

Inductive Stage : Type :=
| AwaitFetch        (* await fetch(url) *)
| AwaitJson.        (* await response.json() *)

Record World : Type := MkWorld {
  data : Json;                    (* useState([]) *)
  mounted : bool;
  pending : option Stage;         (* the suspended fetchData run *)
  trace : list Obs
}.

Definition init : World :=
  {| data := JArr []; mounted := false; pending := None; trace := [] |}.

Inductive Outcome : Type :=
| Response (ok : bool) (statusText : string)
| FetchRejected (e : Error)
| Body (data : Json)
| BodyRejected (e : Error).

Inductive Event : Type :=
| Mount
| Resolve (r : Outcome).

(** [setData(v)] *)
Definition setData (v : Json) (w : World) : World :=
  {| data := v; mounted := mounted w; pending := None; trace := trace w |}.

(** The effect has no dependencies: it runs on mount only and calls
    [fetchData()], which is suspended at [fetch]. *)
Definition effect (w : World) : World :=
  {| data := data w; mounted := true; pending := Some AwaitFetch;
     trace := trace w ++ [Transport 0 posts_url] |}.

(** [fetchData] resumed; every throw lands in [catch], which calls
    [setData([])]. *)
Definition resume (st : Stage) (r : Outcome) (w : World) : option World :=
  match st, r with
  | AwaitFetch, Response true _ =>
      Some {| data := data w; mounted := mounted w; pending := Some AwaitJson;
              trace := trace w |}
  | AwaitFetch, Response false _ => Some (setData (JArr []) w)
  | AwaitFetch, FetchRejected _ => Some (setData (JArr []) w)
  | AwaitJson, Body d => Some (setData d w)
  | AwaitJson, BodyRejected _ => Some (setData (JArr []) w)
  | _, _ => None
  end.

Definition step (w : World) (ev : Event) : option World :=
  match ev with
  | Mount => if mounted w then None else Some (effect w)
  | Resolve r =>
      match pending w with
      | Some st => resume st r w
      | None => None
      end
  end.

Fixpoint run (w : World) (evs : list Event) : option World :=
  match evs with
  | [] => Some w
  | ev :: evs' =>
      match step w ev with
      | Some w' => run w' evs'
      | None => None
      end
  end.

(** The list under the header. *)
Definition view (w : World) : View := list_view (Some (data w)).

End Simple.

(** ** PostsPage: the toggle over [Posts] *)

Module PostsPage.

(** The page holds the toggle; every [Posts] it has mounted so far is an
    instance of the volatile hook, the last one being on screen while the
    page is expanded.  All instances share the [cache] object. *)
Record World : Type := MkWorld {
  isExpanded : bool;
  cache : gmap string Json;
  instances : list Volatile.World
}.

Definition init (c : gmap string Json) : World :=
  {| isExpanded := useToggle.initial None; cache := c; instances := [] |}.

Inductive Event : Type :=
| Click                                             (* the button *)
| Settle (i : nat) (op : nat) (r : Volatile.Outcome). (* instance i, operation op *)

(** An instance steps over the shared cache and leaves it as it made it. *)
Definition step_instance (c : gmap string Json) (p : Volatile.World)
    (ev : Volatile.Event) : option Volatile.World :=
  Volatile.step (Volatile.set_cache c p) ev.

Definition step (w : World) (ev : Event) : option World :=
  match ev with
  | Click =>
      if isExpanded w
      then (* [Posts] leaves the tree: its effect is cleaned up *)
        match last (instances w) with
        | Some p =>
            match step_instance (cache w) p Volatile.Unmount with
            | Some p' =>
                Some {| isExpanded := useToggle.call (isExpanded w) useToggle.toggle;
                        cache := Volatile.cache p';
                        instances :=
                          <[pred (length (instances w)) := p']> (instances w) |}
            | None => None
            end
        | None => None
        end
      else (* a new [Posts] is mounted and its effect runs *)
        match step_instance (cache w) (Volatile.init (cache w))
                (Volatile.Render (Some posts_url)) with
        | Some p' =>
            Some {| isExpanded := useToggle.call (isExpanded w) useToggle.toggle;
                    cache := Volatile.cache p';
                    instances := instances w ++ [p'] |}
        | None => None
        end
  | Settle i op r =>
      match instances w !! i with
      | Some p =>
          match step_instance (cache w) p (Volatile.Resolve op r) with
          | Some p' =>
              Some {| isExpanded := isExpanded w;
                      cache := Volatile.cache p';
                      instances := <[i := p']> (instances w) |}
          | None => None
          end
      | None => None
      end
  end.

Fixpoint run (w : World) (evs : list Event) : option World :=
  match evs with
  | [] => Some w
  | ev :: evs' =>
      match step w ev with
      | Some w' => run w' evs'
      | None => None
      end
  end.

Definition reachable (w : World) : Prop :=
  exists c evs, run (init c) evs = Some w.

(** What is on screen under the button: nothing while collapsed. *)
Definition view (w : World) : option View :=
  if isExpanded w
  then match last (instances w) with
       | Some p => Some (Posts (Volatile.state p))
       | None => None
       end
  else None.

(** No instance has an operation in flight. *)
Definition quiet (w : World) : Prop :=
  Forall (fun p => Volatile.pending p = ∅) (instances w).

(** An instance that found [V] in the cache when it was mounted. *)
Definition served_from_cache (V : Json) (p : Volatile.World) : Prop :=
  Volatile.trace p
  = [Dispatch 0 act_loading; CacheRead 0 posts_url; CacheRead 0 posts_url;
     Dispatch 0 (act_fetched V)] /\
  Volatile.state p
  = {| data := Some V; error := None; isLoading := Some false |}.

(** The instances of a page: all unmounted, but the last one while the page
    is expanded. *)
Definition tidy (w : World) : Prop :=
  forall i p, instances w !! i = Some p ->
    if isExpanded w && Nat.eqb (S i) (length (instances w))
    then Volatile.phase p = Volatile.Mounted (Some posts_url) true
    else Volatile.phase p = Volatile.Disposed.

(** [w'] continues [w] without a fetch: the cache is as it was, no operation
    is in flight, the instances of [w] show the trace and state they had,
    the instances mounted since were served [V] from the cache, and a page
    that was collapsed in [w] is expanded in [w'] only over such an
    instance. *)
Definition steady (V : Json) (w w' : World) : Prop :=
  cache w' = cache w /\
  quiet w' /\
  (length (instances w) <= length (instances w'))%nat /\
  (isExpanded w = false -> isExpanded w' = true ->
   (length (instances w) < length (instances w'))%nat) /\
  forall i p',
    instances w' !! i = Some p' ->
    if decide (i < length (instances w))%nat
    then exists p, instances w !! i = Some p /\
                   Volatile.trace p' = Volatile.trace p /\
                   Volatile.state p' = Volatile.state p
    else served_from_cache V p'.

End PostsPage.

(** * Properties *)

(** ** The reducers *)

Lemma volatile_reducer_at_most_one s a :
  at_most_one (Volatile.fetchReducer s a).
Proof. destruct a; [left | right | left]; reflexivity. Qed.

Lemma durable_reducer_at_most_one s a :
  at_most_one (Durable.fetchReducer s a).
Proof. destruct a; [left | right | left]; reflexivity. Qed.

Lemma reducer_run_snoc reducer s0 acts a :
  reducer_run reducer s0 (acts ++ [a]) = reducer (reducer_run reducer s0 acts) a.
Proof. unfold reducer_run. now rewrite fold_left_app. Qed.

Lemma reducer_run_app reducer s0 acts1 acts2 :
  reducer_run reducer s0 (acts1 ++ acts2)
  = reducer_run reducer (reducer_run reducer s0 acts1) acts2.
Proof. unfold reducer_run. now rewrite fold_left_app. Qed.

Lemma reducer_run_invariant (P : State -> Prop) reducer s0 :
  P s0 -> (forall s a, P (reducer s a)) ->
  forall acts, P (reducer_run reducer s0 acts).
Proof.
  intros H0 Hstep acts.
  induction acts as [|a acts _] using rev_ind; [exact H0|].
  rewrite reducer_run_snoc. apply Hstep.
Qed.

Lemma durable_reducer_isLoading s a :
  isLoading (Durable.fetchReducer s a) = Some false.
Proof. now destruct a. Qed.

Lemma truthy_lookup_Some o v :
  truthy_lookup o = Some v -> o = Some v /\ truthy v = true.
Proof.
  destruct o as [x|]; cbn; [|discriminate].
  destruct (truthy x) eqn:E; [|discriminate]. intros [= ->]. now split.
Qed.

Lemma truthy_lookup_hit o v :
  o = Some v -> truthy v = true -> truthy_lookup o = Some v.
Proof. intros -> Ht. cbn. now rewrite Ht. Qed.

Lemma dispatched_app t1 t2 : dispatched (t1 ++ t2) = dispatched t1 ++ dispatched t2.
Proof. apply omap_app. Qed.

(** Splits on the innermost scrutinee of the matches of [H]. *)
Ltac break_match H :=
  repeat match type of H with
         | context [match ?x with _ => _ end] =>
             lazymatch x with
             | context [match _ with _ => _ end] => fail
             | _ => destruct x eqn:?
             end
         end.

(** Gives the observations a step appends to the trace. *)
Ltac extends_trace :=
  first [ exists []; rewrite app_nil_r; split; [reflexivity|]
        | eexists; rewrite <- ?app_assoc; split; [reflexivity|] ].

(** Reduces a lookup in the pending operations after a step. *)
Ltac pending_lookup Hk :=
  repeat match type of Hk with
         | is_Some (<[_ := _]> _ !! _) =>
             apply lookup_insert_is_Some in Hk as [<-|[_ Hk]]
         | is_Some (delete _ _ !! _) =>
             apply lookup_delete_is_Some in Hk as [_ Hk]
         end.

(** ** The hook over the object cache *)

Module VolatileFacts.
Import Volatile.

(** Evaluates world updates on a world given by its fields. *)
Ltac eval_world :=
  cbv beta iota zeta delta
    [step resume effect fetchData catch run_cleanup finish suspend
     dispatch emit set_state set_cancelRequest set_phase set_cache
     set_pending set_next trace state cancelRequest phase cache pending next]
    in *.

Ltac step_cases H :=
  eval_world; break_match H; simplify_eq; eval_world.

Lemma v_run_app evs1 : forall evs2 w,
  run w (evs1 ++ evs2) = match run w evs1 with
                         | Some w1 => run w1 evs2
                         | None => None
                         end.
Proof.
  induction evs1 as [|ev evs1 IH]; intros evs2 w; cbn; [reflexivity|].
  destruct (step w ev); [apply IH | reflexivity].
Qed.

Lemma v_reachable_step w ev w' : reachable w -> step w ev = Some w' -> reachable w'.
Proof.
  intros (c & evs & Hr) H. exists c, (evs ++ [ev]).
  rewrite v_run_app, Hr. cbn. now rewrite H.
Qed.

(** An invariant of the steps holds in every reachable world. *)
Lemma v_reachable_ind (P : World -> Prop) :
  (forall c, P (init c)) ->
  (forall w ev w', P w -> step w ev = Some w' -> P w') ->
  forall w, reachable w -> P w.
Proof.
  intros Hinit Hstep w (c & evs & Hr).
  assert (Hgen : forall evs w0 w1, P w0 -> run w0 evs = Some w1 -> P w1).
  { clear - Hstep. induction evs as [|ev evs IH]; intros w0 w1 H0 H; cbn in H.
    - now simplify_eq.
    - destruct (step w0 ev) as [w2|] eqn:E; [|discriminate]. eauto. }
  eapply Hgen; [apply Hinit | exact Hr].
Qed.

Lemma v_step_wf w ev w' : wf w -> step w ev = Some w' -> wf w'.
Proof.
  intros Hwf H. destruct w as [s c p ca pe n t]. unfold wf in *.
  destruct ev as [url| |op r]; step_cases H; intros k Hk; pending_lookup Hk;
    first [ lia | specialize (Hwf _ Hk); lia
          | specialize (Hwf _ ltac:(eauto)); lia ].
Qed.

Lemma v_reachable_wf w : reachable w -> wf w.
Proof.
  apply v_reachable_ind.
  - intros c op [x Hx]. cbn in Hx. now rewrite lookup_empty in Hx.
  - intros; eapply v_step_wf; eassumption.
Qed.

(** The state is the reducer folded over what a step dispatches. *)
Lemma v_step_obs w ev w' :
  step w ev = Some w' ->
  exists obs, trace w' = trace w ++ obs /\
              state w' = reducer_run fetchReducer (state w) (dispatched obs).
Proof.
  intros H. destruct w as [s c p ca pe n t].
  destruct ev as [url| |op r]; step_cases H; extends_trace; reflexivity.
Qed.

Lemma v_run_obs evs : forall w w',
  run w evs = Some w' ->
  exists obs, trace w' = trace w ++ obs /\
              state w' = reducer_run fetchReducer (state w) (dispatched obs).
Proof.
  induction evs as [|ev evs IH]; intros w w' H; cbn in H.
  - simplify_eq. exists []. now rewrite app_nil_r.
  - destruct (step w ev) as [w1|] eqn:E; [|discriminate].
    destruct (v_step_obs _ _ _ E) as (o1 & Ht1 & Hs1).
    destruct (IH _ _ H) as (o2 & Ht2 & Hs2).
    exists (o1 ++ o2). split.
    + now rewrite Ht2, Ht1, app_assoc.
    + now rewrite Hs2, Hs1, dispatched_app, reducer_run_app.
Qed.

(** An operation that is over does nothing more. *)
Lemma v_step_silent k w ev w' :
  step w ev = Some w' -> pending w !! k = None -> (k < next w)%nat ->
  exists obs, trace w' = trace w ++ obs /\ Forall (fun o => obs_op o <> k) obs /\
              pending w' !! k = None /\ (k < next w')%nat.
Proof.
  intros H Hk Hlt. destruct w as [s c p ca pe n t]. cbn in Hk, Hlt.
  destruct ev as [url| |op r]; step_cases H; extends_trace;
    repeat match goal with
           | |- _ /\ _ => split
           | |- Forall _ _ => repeat constructor; cbn; try lia; congruence
           | |- (_ < _)%nat => lia
           | |- _ !! _ = None =>
               rewrite ?lookup_insert_ne, ?lookup_delete_ne
                 by (try lia; congruence);
               assumption
           end.
Qed.

Lemma v_run_silent k evs : forall w w',
  run w evs = Some w' -> pending w !! k = None -> (k < next w)%nat ->
  exists obs, trace w' = trace w ++ obs /\ Forall (fun o => obs_op o <> k) obs.
Proof.
  induction evs as [|ev evs IH]; intros w w' H Hk Hlt; cbn in H.
  - simplify_eq. exists []. now rewrite app_nil_r.
  - destruct (step w ev) as [w1|] eqn:E; [|discriminate].
    destruct (v_step_silent k _ _ _ E Hk Hlt) as (o1 & Ht1 & Hf1 & Hk1 & Hlt1).
    destruct (IH _ _ H Hk1 Hlt1) as (o2 & Ht2 & Hf2).
    exists (o1 ++ o2). split; [now rewrite Ht2, Ht1, app_assoc|].
    now apply Forall_app.
Qed.

(** A suspended operation is covered by the flag or by a cleanup to come. *)
Lemma v_step_armed w ev w' : armed w -> step w ev = Some w' -> armed w'.
Proof.
  intros Ha H. destruct w as [s c p ca pe n t]. unfold armed in *.
  destruct ev as [url| |op r]; step_cases H;
    try (right; right; eexists; reflexivity);
    try (right; left; reflexivity);
    try (destruct Ha as [Ha|[Ha|[u Ha]]];
         [ first [ left; exact Ha | subst pe; rewrite lookup_empty in *; discriminate ]
         | right; left; exact Ha
         | first [ right; right; exists u; exact Ha | discriminate ] ]).
Qed.

Lemma v_reachable_armed w : reachable w -> armed w.
Proof.
  apply v_reachable_ind.
  - intros c. now left.
  - intros; eapply v_step_armed; eassumption.
Qed.

(** With the flag set, settling an operation dispatches nothing. *)
Lemma v_cancelled_resolve w op r w' :
  cancelRequest w = true -> step w (Resolve op r) = Some w' ->
  state w' = state w /\ dispatched (trace w') = dispatched (trace w) /\
  cancelRequest w' = true /\ phase w' = phase w.
Proof.
  intros Hc H. destruct w as [s c p ca pe n t]. cbn in Hc. subst c.
  step_cases H; rewrite ?dispatched_app, ?app_nil_r; auto.
Qed.

(** After the unmount nothing is dispatched any more. *)
Lemma v_disposed_run evs : forall w w',
  phase w = Disposed -> cancelRequest w = true \/ pending w = ∅ ->
  run w evs = Some w' ->
  state w' = state w /\ dispatched (trace w') = dispatched (trace w).
Proof.
  induction evs as [|ev evs IH]; intros w w' Hp Hc H; cbn in H.
  - now simplify_eq.
  - destruct (step w ev) as [w1|] eqn:E; [|discriminate].
    destruct ev as [url| |op r].
    + cbn in E. now rewrite Hp in E.
    + cbn in E. now rewrite Hp in E.
    + destruct Hc as [Hc|Hc].
      * destruct (v_cancelled_resolve _ _ _ _ Hc E) as (Hs & Hd & Hc1 & Hp1).
        destruct (IH w1 w') as [Hs' Hd']; auto; [congruence|].
        split; congruence.
      * cbn in E. rewrite Hc, lookup_empty in E. discriminate.
Qed.

End VolatileFacts.

(** ** The hook over the localForage store *)

Module DurableFacts.
Import Durable.

(** Evaluates world updates on a world given by its fields. *)
Ltac eval_world :=
  cbv beta iota zeta delta
    [step resume effect fetchData catch run_cleanup finish suspend
     dispatch emit set_state set_cancelRequest set_phase set_store
     set_pending set_next trace state cancelRequest phase store pending next]
    in *.

Ltac step_cases H :=
  eval_world; break_match H; simplify_eq; eval_world.

Lemma d_run_app evs1 : forall evs2 w,
  run w (evs1 ++ evs2) = match run w evs1 with
                         | Some w1 => run w1 evs2
                         | None => None
                         end.
Proof.
  induction evs1 as [|ev evs1 IH]; intros evs2 w; cbn; [reflexivity|].
  destruct (step w ev); [apply IH | reflexivity].
Qed.

Lemma d_reachable_step w ev w' : reachable w -> step w ev = Some w' -> reachable w'.
Proof.
  intros (c & evs & Hr) H. exists c, (evs ++ [ev]).
  rewrite d_run_app, Hr. cbn. now rewrite H.
Qed.

(** An invariant of the steps holds in every reachable world. *)
Lemma d_reachable_ind (P : World -> Prop) :
  (forall c, P (init c)) ->
  (forall w ev w', P w -> step w ev = Some w' -> P w') ->
  forall w, reachable w -> P w.
Proof.
  intros Hinit Hstep w (c & evs & Hr).
  assert (Hgen : forall evs w0 w1, P w0 -> run w0 evs = Some w1 -> P w1).
  { clear - Hstep. induction evs as [|ev evs IH]; intros w0 w1 H0 H; cbn in H.
    - now simplify_eq.
    - destruct (step w0 ev) as [w2|] eqn:E; [|discriminate]. eauto. }
  eapply Hgen; [apply Hinit | exact Hr].
Qed.

Lemma d_step_wf w ev w' : wf w -> step w ev = Some w' -> wf w'.
Proof.
  intros Hwf H. destruct w as [s c p ca pe n t]. unfold wf in *.
  destruct ev as [url| |op r]; step_cases H; intros k Hk; pending_lookup Hk;
    first [ lia | specialize (Hwf _ Hk); lia
          | specialize (Hwf _ ltac:(eauto)); lia ].
Qed.

Lemma d_reachable_wf w : reachable w -> wf w.
Proof.
  apply d_reachable_ind.
  - intros c op [x Hx]. cbn in Hx. now rewrite lookup_empty in Hx.
  - intros; eapply d_step_wf; eassumption.
Qed.

(** The state is the reducer folded over what a step dispatches. *)
Lemma d_step_obs w ev w' :
  step w ev = Some w' ->
  exists obs, trace w' = trace w ++ obs /\
              state w' = reducer_run fetchReducer (state w) (dispatched obs).
Proof.
  intros H. destruct w as [s c p ca pe n t].
  destruct ev as [url| |op r]; step_cases H; extends_trace; reflexivity.
Qed.

Lemma d_run_obs evs : forall w w',
  run w evs = Some w' ->
  exists obs, trace w' = trace w ++ obs /\
              state w' = reducer_run fetchReducer (state w) (dispatched obs).
Proof.
  induction evs as [|ev evs IH]; intros w w' H; cbn in H.
  - simplify_eq. exists []. now rewrite app_nil_r.
  - destruct (step w ev) as [w1|] eqn:E; [|discriminate].
    destruct (d_step_obs _ _ _ E) as (o1 & Ht1 & Hs1).
    destruct (IH _ _ H) as (o2 & Ht2 & Hs2).
    exists (o1 ++ o2). split.
    + now rewrite Ht2, Ht1, app_assoc.
    + now rewrite Hs2, Hs1, dispatched_app, reducer_run_app.
Qed.

(** An operation that is over does nothing more. *)
Lemma d_step_silent k w ev w' :
  step w ev = Some w' -> pending w !! k = None -> (k < next w)%nat ->
  exists obs, trace w' = trace w ++ obs /\ Forall (fun o => obs_op o <> k) obs /\
              pending w' !! k = None /\ (k < next w')%nat.
Proof.
  intros H Hk Hlt. destruct w as [s c p ca pe n t]. cbn in Hk, Hlt.
  destruct ev as [url| |op r]; step_cases H; extends_trace;
    repeat match goal with
           | |- _ /\ _ => split
           | |- Forall _ _ => repeat constructor; cbn; try lia; congruence
           | |- (_ < _)%nat => lia
           | |- _ !! _ = None =>
               rewrite ?lookup_insert_ne, ?lookup_delete_ne
                 by (try lia; congruence);
               assumption
           end.
Qed.

Lemma d_run_silent k evs : forall w w',
  run w evs = Some w' -> pending w !! k = None -> (k < next w)%nat ->
  exists obs, trace w' = trace w ++ obs /\ Forall (fun o => obs_op o <> k) obs.
Proof.
  induction evs as [|ev evs IH]; intros w w' H Hk Hlt; cbn in H.
  - simplify_eq. exists []. now rewrite app_nil_r.
  - destruct (step w ev) as [w1|] eqn:E; [|discriminate].
    destruct (d_step_silent k _ _ _ E Hk Hlt) as (o1 & Ht1 & Hf1 & Hk1 & Hlt1).
    destruct (IH _ _ H Hk1 Hlt1) as (o2 & Ht2 & Hf2).
    exists (o1 ++ o2). split; [now rewrite Ht2, Ht1, app_assoc|].
    now apply Forall_app.
Qed.

(** The unmount runs the cleanup, and nothing resets the flag afterwards. *)
Lemma d_reachable_disposed_cancelled w : reachable w -> disposed_cancelled w.
Proof.
  apply d_reachable_ind.
  - intros c Hp. discriminate.
  - intros w0 ev w' Hd H. destruct w0 as [s c p ca pe n t].
    unfold disposed_cancelled in *.
    destruct ev as [url| |op r]; step_cases H; intros Hp;
      first [ discriminate | reflexivity | now apply Hd ].
Qed.

(** A suspended [setItem] call is in the trace. *)
Lemma d_reachable_set_logged w : reachable w -> set_logged w.
Proof.
  apply d_reachable_ind.
  - intros c op url d Hp. cbn in Hp. now rewrite lookup_empty in Hp.
  - intros w0 ev w' Hl H. destruct w0 as [s c p ca pe n t].
    unfold set_logged in *.
    destruct ev as [url| |op r]; step_cases H; intros k u d Hk;
      repeat match type of Hk with
             | <[_ := _]> _ !! _ = Some _ =>
                 apply lookup_insert_Some in Hk as [[<- Hk]|[_ Hk]]
             | delete _ _ !! _ = Some _ =>
                 apply lookup_delete_Some in Hk as [_ Hk]
             end;
      simplify_eq; rewrite ?in_app_iff; cbn; eauto 6.
Qed.

(** With the flag set, settling anything but the read dispatches nothing. *)
Lemma d_cancelled_resolve w op r w' :
  cancelRequest w = true -> r <> Got -> step w (Resolve op r) = Some w' ->
  state w' = state w /\ dispatched (trace w') = dispatched (trace w) /\
  cancelRequest w' = true /\ phase w' = phase w.
Proof.
  intros Hc Hr H. destruct w as [s c p ca pe n t]. cbn in Hc. subst c.
  step_cases H; rewrite ?dispatched_app, ?app_nil_r; auto; congruence.
Qed.

(** After the unmount no transport outcome is dispatched any more. *)
Lemma d_disposed_run evs : forall w w',
  phase w = Disposed -> cancelRequest w = true ->
  Forall (fun ev => is_get_resolution ev = false) evs ->
  run w evs = Some w' ->
  state w' = state w /\ dispatched (trace w') = dispatched (trace w).
Proof.
  induction evs as [|ev evs IH]; intros w w' Hp Hc Hevs H; cbn in H.
  - now simplify_eq.
  - destruct (step w ev) as [w1|] eqn:E; [|discriminate].
    apply Forall_cons in Hevs as [Hev Hevs].
    destruct ev as [url| |op r].
    + cbn in E. now rewrite Hp in E.
    + cbn in E. now rewrite Hp in E.
    + assert (Hr : r <> Got) by (intros ->; discriminate).
      destruct (d_cancelled_resolve _ _ _ _ Hc Hr E) as (Hs & Hd & Hc1 & Hp1).
      destruct (IH w1 w') as [Hs' Hd']; auto; [congruence|].
      split; congruence.
Qed.

End DurableFacts.

(** ** The claims *)

Local Open Scope string_scope.
Local Open Scope list_scope.

(** A world given as [after c evs] is reachable when the run computes. *)
Ltac reached :=
  lazymatch goal with
  | |- Volatile.reachable (Volatile.after ?c ?evs) =>
      exists c, evs; vm_compute; reflexivity
  | |- Durable.reachable (Durable.after ?c ?evs) =>
      exists c, evs; vm_compute; reflexivity
  end.

(** C7: in every state either reducer can reach, and so in every state a
    consumer of either hook can observe, at most one of [data] and [error] is
    populated: whatever the prior state, ['loading'] leaves both undefined,
    ['fetched'] sets [data] and leaves [error] undefined, and ['error'] sets
    [error] and leaves [data] undefined. *)
Theorem C7_data_error_exclusive :
  (forall acts,
     at_most_one (reducer_run Volatile.fetchReducer Volatile.initialState acts)) /\
  (forall acts,
     at_most_one (reducer_run Durable.fetchReducer Durable.initialState acts)) /\
  (forall w, Volatile.reachable w -> at_most_one (Volatile.state w)) /\
  (forall w, Durable.reachable w -> at_most_one (Durable.state w)) /\
  (forall s,
     data (Volatile.fetchReducer s act_loading) = None /\
     error (Volatile.fetchReducer s act_loading) = None /\
     data (Durable.fetchReducer s act_loading) = None /\
     error (Durable.fetchReducer s act_loading) = None) /\
  (forall s p,
     data (Volatile.fetchReducer s (act_fetched p)) = Some p /\
     error (Volatile.fetchReducer s (act_fetched p)) = None /\
     data (Durable.fetchReducer s (act_fetched p)) = Some p /\
     error (Durable.fetchReducer s (act_fetched p)) = None) /\
  (forall s e,
     error (Volatile.fetchReducer s (act_error e)) = Some e /\
     data (Volatile.fetchReducer s (act_error e)) = None /\
     error (Durable.fetchReducer s (act_error e)) = Some e /\
     data (Durable.fetchReducer s (act_error e)) = None).
Proof.
  assert (Hv : forall acts,
    at_most_one (reducer_run Volatile.fetchReducer Volatile.initialState acts)).
  { apply reducer_run_invariant;
      [now left | apply volatile_reducer_at_most_one]. }
  assert (Hd : forall acts,
    at_most_one (reducer_run Durable.fetchReducer Durable.initialState acts)).
  { apply reducer_run_invariant;
      [now left | apply durable_reducer_at_most_one]. }
  repeat split; auto.
  - intros w (c & evs & Hr).
    destruct (VolatileFacts.v_run_obs _ _ _ Hr) as (obs & _ & ->). apply Hv.
  - intros w (c & evs & Hr).
    destruct (DurableFacts.d_run_obs _ _ _ Hr) as (obs & _ & ->). apply Hd.
Qed.

Lemma C7_witness :
  at_most_one
    (Volatile.state
       (Volatile.after ∅
          [Volatile.Render (Some "u");
           Volatile.Resolve 0 (Volatile.Response false "Not Found")])) /\
  at_most_one
    (Durable.state
       (Durable.after ∅
          [Durable.Render "u"; Durable.Resolve 0 Durable.Got;
           Durable.Resolve 0 (Durable.Response false "Not Found")])).
Proof.
  split.
  - apply (proj1 (proj2 (proj2 C7_data_error_exclusive))).
    reached.
  - apply (proj1 (proj2 (proj2 (proj2 C7_data_error_exclusive)))).
    reached.
Defined.

(** C10: the durable hook never reports [isLoading] as true: its initial
    state has [isLoading = false] and each of its actions, ['loading']
    included, returns a copy of that initial state with at most [data] or
    [error] replaced; the ['loading'] action of the volatile hook sets
    [isLoading] to true. *)
Theorem C10_durable_isLoading_false :
  (forall acts,
     isLoading (reducer_run Durable.fetchReducer Durable.initialState acts)
     = Some false) /\
  (forall w, Durable.reachable w -> isLoading (Durable.state w) = Some false) /\
  (forall s, Durable.fetchReducer s act_loading = Durable.initialState) /\
  (forall s, isLoading (Volatile.fetchReducer s act_loading) = Some true).
Proof.
  assert (Hd : forall acts,
    isLoading (reducer_run Durable.fetchReducer Durable.initialState acts)
    = Some false).
  { apply (reducer_run_invariant (fun s => isLoading s = Some false));
      [reflexivity | apply durable_reducer_isLoading]. }
  repeat split; auto.
  intros w (c & evs & Hr).
  destruct (DurableFacts.d_run_obs _ _ _ Hr) as (obs & _ & ->). apply Hd.
Qed.

Lemma C10_witness :
  isLoading
    (Durable.state
       (Durable.after ∅ [Durable.Render "u"])) = Some false.
Proof.
  apply (proj1 (proj2 C10_durable_isLoading_false)).
  reached.
Defined.

(** C1, as the code has it: the hook owns one [cancelRequest] flag.  When
    the flag is set at the moment a transport outcome of an operation settles
    (the response, the body, the store write, or the rejection of any of
    them), that operation dispatches nothing and the reducer state stays as
    it was.  Once the component is unmounted the flag stays set, so no
    transport outcome of any operation is dispatched from then on.  An
    effect run for a non-empty identifier resets the flag. *)
Theorem C1_flag_set_transport_outcome_silent :
  (forall w op r w',
     Volatile.cancelRequest w = true ->
     Volatile.step w (Volatile.Resolve op r) = Some w' ->
     Volatile.state w' = Volatile.state w /\
     dispatched (Volatile.trace w') = dispatched (Volatile.trace w)) /\
  (forall w op r w',
     Durable.cancelRequest w = true ->
     r <> Durable.Got ->
     Durable.step w (Durable.Resolve op r) = Some w' ->
     Durable.state w' = Durable.state w /\
     dispatched (Durable.trace w') = dispatched (Durable.trace w)) /\
  (forall w evs w',
     Volatile.reachable w ->
     Volatile.phase w = Volatile.Disposed ->
     Volatile.run w evs = Some w' ->
     Volatile.state w' = Volatile.state w /\
     dispatched (Volatile.trace w') = dispatched (Volatile.trace w)) /\
  (forall w evs w',
     Durable.reachable w ->
     Durable.phase w = Durable.Disposed ->
     Forall (fun ev => Durable.is_get_resolution ev = false) evs ->
     Durable.run w evs = Some w' ->
     Durable.state w' = Durable.state w /\
     dispatched (Durable.trace w') = dispatched (Durable.trace w)) /\
  (forall w url u w',
     Volatile.activates w url = true ->
     truthy_url url = Some u ->
     Volatile.step w (Volatile.Render url) = Some w' ->
     Volatile.cancelRequest w' = false) /\
  (forall w url w',
     Durable.activates w url = true ->
     truthy_url (Some url) = Some url ->
     Durable.step w (Durable.Render url) = Some w' ->
     Durable.cancelRequest w' = false).
Proof.
  split; [|split; [|split; [|split; [|split]]]].
  - intros w op r w' Hc H.
    now destruct (VolatileFacts.v_cancelled_resolve _ _ _ _ Hc H) as (? & ? & _).
  - intros w op r w' Hc Hr H.
    now destruct (DurableFacts.d_cancelled_resolve _ _ _ _ Hc Hr H) as (? & ? & _).
  - intros w evs w' Hreach Hp H.
    eapply VolatileFacts.v_disposed_run; [exact Hp | | exact H].
    destruct (VolatileFacts.v_reachable_armed _ Hreach) as [He|[Hc|[u Hu]]];
      [now right | now left | congruence].
  - intros w evs w' Hreach Hp Hevs H.
    eapply DurableFacts.d_disposed_run; [exact Hp | | exact Hevs | exact H].
    now apply DurableFacts.d_reachable_disposed_cancelled.
  - intros w url u w' Hact Hu H. destruct w as [s c p ca pe n t].
    unfold Volatile.activates in Hact. cbn in Hact.
    destruct p as [|url0 cl|]; [| |discriminate].
    + VolatileFacts.eval_world. rewrite Hu in H.
      VolatileFacts.step_cases H; reflexivity.
    + destruct (decide (url0 = url)) as [->|Hne];
        [now rewrite bool_decide_eq_true_2 in Hact|].
      VolatileFacts.eval_world.
      destruct (decide (url0 = url)); [contradiction|].
      rewrite Hu in H. VolatileFacts.step_cases H; reflexivity.
  - intros w url w' Hact Hu H. destruct w as [s c p ca pe n t].
    unfold Durable.activates in Hact. cbn in Hact.
    destruct p as [|url0|]; [| |discriminate].
    + DurableFacts.eval_world. rewrite Hu in H.
      DurableFacts.step_cases H; reflexivity.
    + destruct (decide (url0 = url)) as [->|Hne];
        [now rewrite bool_decide_eq_true_2 in Hact|].
      DurableFacts.eval_world.
      destruct (decide (url0 = url)); [contradiction|].
      rewrite Hu in H. DurableFacts.step_cases H; reflexivity.
Qed.

(** The component is unmounted while the fetch for "a" is in flight; the
    response and the body of "a" then arrive. *)
Lemma C1_witness :
  (let w := Volatile.after ∅
              [Volatile.Render (Some "a"); Volatile.Unmount;
               Volatile.Resolve 0 (Volatile.Response true "OK")] in
   let w' := Volatile.after ∅
               [Volatile.Render (Some "a"); Volatile.Unmount;
                Volatile.Resolve 0 (Volatile.Response true "OK");
                Volatile.Resolve 0 (Volatile.Body (JNum 1))] in
   Volatile.state w' = Volatile.state w /\
   dispatched (Volatile.trace w') = dispatched (Volatile.trace w)) /\
  (let w := Durable.after ∅
              [Durable.Render "a"; Durable.Resolve 0 Durable.Got;
               Durable.Unmount] in
   let w' := Durable.after ∅
               [Durable.Render "a"; Durable.Resolve 0 Durable.Got;
                Durable.Unmount;
                Durable.Resolve 0 (Durable.Response false "Not Found")] in
   Durable.state w' = Durable.state w /\
   dispatched (Durable.trace w') = dispatched (Durable.trace w)) /\
  (let w := Volatile.after ∅ [Volatile.Render (Some "a"); Volatile.Unmount] in
   let w' := Volatile.after ∅
               [Volatile.Render (Some "a"); Volatile.Unmount;
                Volatile.Resolve 0 (Volatile.Response true "OK");
                Volatile.Resolve 0 (Volatile.Body (JNum 1))] in
   Volatile.state w' = Volatile.state w /\
   dispatched (Volatile.trace w') = dispatched (Volatile.trace w)) /\
  (let w := Durable.after ∅
              [Durable.Render "a"; Durable.Resolve 0 Durable.Got;
               Durable.Unmount] in
   let w' := Durable.after ∅
               [Durable.Render "a"; Durable.Resolve 0 Durable.Got;
                Durable.Unmount;
                Durable.Resolve 0 (Durable.Response true "OK");
                Durable.Resolve 0 (Durable.Body (JNum 1));
                Durable.Resolve 0 Durable.Stored] in
   Durable.state w' = Durable.state w /\
   dispatched (Durable.trace w') = dispatched (Durable.trace w)) /\
  Volatile.cancelRequest
    (Volatile.after ∅ [Volatile.Render (Some "a"); Volatile.Render (Some "b")])
  = false /\
  Durable.cancelRequest
    (Durable.after ∅ [Durable.Render "a"; Durable.Render "b"]) = false.
Proof.
  split; [|split; [|split; [|split; [|split]]]]; try intros w w'.
  - apply (proj1 C1_flag_set_transport_outcome_silent w 0%nat
             (Volatile.Body (JNum 1)) w'); vm_compute; reflexivity.
  - apply (proj1 (proj2 C1_flag_set_transport_outcome_silent) w 0%nat
             (Durable.Response false "Not Found") w');
      [vm_compute; reflexivity | discriminate | vm_compute; reflexivity].
  - apply (proj1 (proj2 (proj2 C1_flag_set_transport_outcome_silent)) w
             [Volatile.Resolve 0 (Volatile.Response true "OK");
              Volatile.Resolve 0 (Volatile.Body (JNum 1))] w');
      [subst w; reached | vm_compute; reflexivity | vm_compute; reflexivity].
  - apply (proj1 (proj2 (proj2 (proj2 C1_flag_set_transport_outcome_silent))) w
             [Durable.Resolve 0 (Durable.Response true "OK");
              Durable.Resolve 0 (Durable.Body (JNum 1));
              Durable.Resolve 0 Durable.Stored] w');
      [subst w; reached | vm_compute; reflexivity
      | repeat constructor | vm_compute; reflexivity].
  - apply (proj1 (proj2 (proj2 (proj2 (proj2
             C1_flag_set_transport_outcome_silent))))
             (Volatile.after ∅ [Volatile.Render (Some "a")]) (Some "b") "b" _);
      vm_compute; reflexivity.
  - apply (proj2 (proj2 (proj2 (proj2 (proj2
             C1_flag_set_transport_outcome_silent))))
             (Durable.after ∅ [Durable.Render "a"]) "b" _);
      vm_compute; reflexivity.
Defined.

(** C1 as stated fails: the identifier changes from "a" to "b" while the
    fetch for "a" is in flight.  The cleanup sets the flag and the effect run
    for "b" resets it, so when the body of "a" arrives the superseded
    operation dispatches ['fetched'] and the state carries the data of "a"
    while the operation for "b" is still waiting. *)
Lemma C1_counterexample :
  Volatile.superseded 0
    (Volatile.after ∅
       [Volatile.Render (Some "a"); Volatile.Render (Some "b");
        Volatile.Resolve 0 (Volatile.Response true "OK")]) = true /\
  Volatile.trace
    (Volatile.after ∅
       [Volatile.Render (Some "a"); Volatile.Render (Some "b");
        Volatile.Resolve 0 (Volatile.Response true "OK");
        Volatile.Resolve 0 (Volatile.Body (JNum 1))])
  = [Dispatch 0 act_loading; CacheRead 0 "a"; Transport 0 "a";
     Dispatch 1 act_loading; CacheRead 1 "b"; Transport 1 "b";
     CacheWrite 0 "a" (JNum 1); Dispatch 0 (act_fetched (JNum 1))] /\
  Volatile.state
    (Volatile.after ∅
       [Volatile.Render (Some "a"); Volatile.Render (Some "b");
        Volatile.Resolve 0 (Volatile.Response true "OK");
        Volatile.Resolve 0 (Volatile.Body (JNum 1))])
  = {| data := Some (JNum 1); error := None; isLoading := Some false |} /\
  Volatile.pending
    (Volatile.after ∅
       [Volatile.Render (Some "a"); Volatile.Render (Some "b");
        Volatile.Resolve 0 (Volatile.Response true "OK");
        Volatile.Resolve 0 (Volatile.Body (JNum 1))]) !! 1%nat
  = Some ("b", Volatile.AwaitFetch).
Proof. repeat split; vm_compute; reflexivity. Qed.

(** The read of the durable hook is the one resolution that dispatches
    without a look at the flag: the store holds [[1]] for "u", the hook is
    mounted with "u" and unmounted before [getItem] resolves; the cleanup has
    set the flag, and ['fetched'] is dispatched all the same. *)
Example durable_hit_after_unmount_dispatches :
  Durable.cancelRequest
    (Durable.after {[ "u" := JArr [JNum 1] ]}
       [Durable.Render "u"; Durable.Unmount]) = true /\
  Durable.trace
    (Durable.after {[ "u" := JArr [JNum 1] ]}
       [Durable.Render "u"; Durable.Unmount; Durable.Resolve 0 Durable.Got])
  = [Dispatch 0 act_loading; CacheRead 0 "u";
     Dispatch 0 (act_fetched (JArr [JNum 1]))].
Proof. split; vm_compute; reflexivity. Qed.

(** C2 as stated fails: the store is empty, the hook is mounted with "u"
    and [getItem] rejects.  The rejection is not taken for a miss: no
    Transport call is in the trace, ['fetched'] is not dispatched, and no
    response can arrive for the operation. *)
Lemma C2_counterexample :
  Durable.trace
    (Durable.after ∅
       [Durable.Render "u";
        Durable.Resolve 0 (Durable.GetRejected (MkError "InvalidStateError"))])
  = [Dispatch 0 act_loading; CacheRead 0 "u";
     Uncaught 0 (MkError "InvalidStateError")] /\
  Durable.state
    (Durable.after ∅
       [Durable.Render "u";
        Durable.Resolve 0 (Durable.GetRejected (MkError "InvalidStateError"))])
  = {| data := None; error := None; isLoading := Some false |} /\
  Durable.run (Durable.init ∅)
    [Durable.Render "u";
     Durable.Resolve 0 (Durable.GetRejected (MkError "InvalidStateError"));
     Durable.Resolve 0 (Durable.Response true "OK")] = None.
Proof. repeat split; vm_compute; reflexivity. Qed.

(** C3, as the code has it: in the durable hook [setItem] is awaited inside
    the [try], before the dispatch of ['fetched'].  When it rejects after
    Transport succeeded with payload P, the [catch] block handles the
    rejection like a transport failure: unless the flag is set, ['error'] is
    dispatched with the store's rejection and the state carries that error
    and no data; ['fetched'] is not dispatched and the store is unchanged. *)
Theorem C3_store_write_failure_reported_as_error :
  forall w op url P e,
    Durable.pending w !! op = Some (url, Durable.AwaitSet P) ->
    exists w',
      Durable.step w (Durable.Resolve op (Durable.SetRejected e)) = Some w' /\
      Durable.store w' = Durable.store w /\
      Durable.pending w' !! op = None /\
      (if Durable.cancelRequest w
       then Durable.trace w' = Durable.trace w /\
            Durable.state w' = Durable.state w
       else Durable.trace w' = Durable.trace w ++ [Dispatch op (act_error e)] /\
            Durable.state w'
            = {| data := None; error := Some e; isLoading := Some false |}).
Proof.
  intros w op url P e Hp.
  eexists. split; [cbn; rewrite Hp; reflexivity|].
  destruct w as [s c p ca pe n t]. destruct c; cbn;
    (split; [reflexivity|]); (split; [apply lookup_delete_eq|]);
    split; reflexivity.
Qed.

Lemma C3_witness :
  let w := Durable.after ∅
             [Durable.Render "u"; Durable.Resolve 0 Durable.Got;
              Durable.Resolve 0 (Durable.Response true "OK");
              Durable.Resolve 0 (Durable.Body (JArr [JNum 1]))] in
  exists w',
    Durable.step w
      (Durable.Resolve 0 (Durable.SetRejected (MkError "QuotaExceededError")))
    = Some w' /\
    Durable.store w' = Durable.store w /\
    Durable.pending w' !! 0%nat = None /\
    Durable.trace w'
    = Durable.trace w ++ [Dispatch 0 (act_error (MkError "QuotaExceededError"))] /\
    Durable.state w'
    = {| data := None; error := Some (MkError "QuotaExceededError");
         isLoading := Some false |}.
Proof.
  intros w.
  apply (C3_store_write_failure_reported_as_error w 0%nat "u" (JArr [JNum 1])
           (MkError "QuotaExceededError")).
  vm_compute; reflexivity.
Defined.

(** C3 as stated fails: Transport succeeds with the payload [[1]] and
    [setItem] rejects.  The consumer is shown ['error'] with the store's
    rejection and never ['fetched'] with the payload. *)
Lemma C3_counterexample :
  Durable.trace
    (Durable.after ∅
       [Durable.Render "u"; Durable.Resolve 0 Durable.Got;
        Durable.Resolve 0 (Durable.Response true "OK");
        Durable.Resolve 0 (Durable.Body (JArr [JNum 1]));
        Durable.Resolve 0 (Durable.SetRejected (MkError "QuotaExceededError"))])
  = [Dispatch 0 act_loading; CacheRead 0 "u"; Transport 0 "u";
     CacheWrite 0 "u" (JArr [JNum 1]);
     Dispatch 0 (act_error (MkError "QuotaExceededError"))] /\
  Durable.state
    (Durable.after ∅
       [Durable.Render "u"; Durable.Resolve 0 Durable.Got;
        Durable.Resolve 0 (Durable.Response true "OK");
        Durable.Resolve 0 (Durable.Body (JArr [JNum 1]));
        Durable.Resolve 0 (Durable.SetRejected (MkError "QuotaExceededError"))])
  = {| data := None; error := Some (MkError "QuotaExceededError");
       isLoading := Some false |} /\
  Durable.pending
    (Durable.after ∅
       [Durable.Render "u"; Durable.Resolve 0 Durable.Got;
        Durable.Resolve 0 (Durable.Response true "OK");
        Durable.Resolve 0 (Durable.Body (JArr [JNum 1]));
        Durable.Resolve 0 (Durable.SetRejected (MkError "QuotaExceededError"))])
  = ∅.
Proof. repeat split; vm_compute; reflexivity. Qed.

(** C4, as the code has it: the hit check is [if (cache[url])] (volatile)
    and [if (cacheData)] (durable), and the effect does nothing for an empty
    identifier.  When the cache holds a truthy value V for a non-empty
    identifier, activating the volatile hook with it dispatches ['loading']
    and then ['fetched'] with exactly V in the same turn and never invokes
    Transport for that operation.  Activating the durable hook dispatches
    ['loading'] and calls [getItem]; when [getItem] resolves while the store
    holds a truthy V, the operation dispatches ['fetched'] with exactly V and
    never invokes Transport. *)
Theorem C4_truthy_cache_hit_skips_transport :
  (forall w url u V,
     Volatile.reachable w ->
     Volatile.activates w url = true ->
     truthy_url url = Some u ->
     Volatile.cache w !! u = Some V ->
     truthy V = true ->
     exists w',
       Volatile.step w (Volatile.Render url) = Some w' /\
       Volatile.trace w'
       = Volatile.trace w ++
         [Dispatch (Volatile.next w) act_loading;
          CacheRead (Volatile.next w) u; CacheRead (Volatile.next w) u;
          Dispatch (Volatile.next w) (act_fetched V)] /\
       Volatile.state w'
       = {| data := Some V; error := None; isLoading := Some false |} /\
       Volatile.cache w' = Volatile.cache w /\
       forall evs w'',
         Volatile.run w' evs = Some w'' ->
         exists obs, Volatile.trace w'' = Volatile.trace w' ++ obs /\
                     Forall (fun o => obs_op o <> Volatile.next w) obs) /\
  (forall w url,
     Durable.activates w url = true ->
     truthy_url (Some url) = Some url ->
     exists w',
       Durable.step w (Durable.Render url) = Some w' /\
       Durable.trace w'
       = Durable.trace w ++
         [Dispatch (Durable.next w) act_loading; CacheRead (Durable.next w) url] /\
       Durable.pending w' !! Durable.next w = Some (url, Durable.AwaitGet)) /\
  (forall w op url V,
     Durable.reachable w ->
     Durable.pending w !! op = Some (url, Durable.AwaitGet) ->
     Durable.store w !! url = Some V ->
     truthy V = true ->
     exists w',
       Durable.step w (Durable.Resolve op Durable.Got) = Some w' /\
       Durable.trace w' = Durable.trace w ++ [Dispatch op (act_fetched V)] /\
       Durable.state w'
       = {| data := Some V; error := None; isLoading := Some false |} /\
       Durable.store w' = Durable.store w /\
       forall evs w'',
         Durable.run w' evs = Some w'' ->
         exists obs, Durable.trace w'' = Durable.trace w' ++ obs /\
                     Forall (fun o => obs_op o <> op) obs).
Proof.
  split; [|split].
  - intros w url u V Hreach Hact Hu Hc Ht.
    pose proof (VolatileFacts.v_reachable_wf _ Hreach) as Hwf.
    assert (Hfresh : Volatile.pending w !! Volatile.next w = None).
    { destruct (Volatile.pending w !! Volatile.next w) eqn:E; [|reflexivity].
      specialize (Hwf (Volatile.next w) ltac:(eauto)). lia. }
    assert (Hstep : exists w',
      Volatile.step w (Volatile.Render url) = Some w' /\
      Volatile.trace w'
      = Volatile.trace w ++
        [Dispatch (Volatile.next w) act_loading;
         CacheRead (Volatile.next w) u; CacheRead (Volatile.next w) u;
         Dispatch (Volatile.next w) (act_fetched V)] /\
      Volatile.state w'
      = {| data := Some V; error := None; isLoading := Some false |} /\
      Volatile.cache w' = Volatile.cache w /\
      Volatile.pending w' = Volatile.pending w /\
      Volatile.next w' = S (Volatile.next w)).
    { clear Hreach Hwf Hfresh. destruct w as [s c p ca pe n t].
      unfold Volatile.activates in Hact. cbn in Hact, Hc.
      pose proof (truthy_lookup_hit _ _ Hc Ht) as Hhit.
      destruct p as [|url0 cl|]; [| |discriminate].
      - VolatileFacts.eval_world. rewrite Hu, Hhit.
        eexists. split; [reflexivity|]. VolatileFacts.eval_world.
        rewrite <- ?app_assoc. repeat split.
      - destruct (decide (url0 = url)) as [->|Hne];
          [now rewrite bool_decide_eq_true_2 in Hact|].
        destruct cl; VolatileFacts.eval_world;
          (destruct (decide (url0 = url)); [contradiction|]);
          rewrite Hu, Hhit; (eexists; split; [reflexivity|]);
          VolatileFacts.eval_world; rewrite <- ?app_assoc; repeat split. }
    destruct Hstep as (w' & Hs & Htr & Hst & Hca & Hpe & Hn).
    exists w'. repeat (split; [assumption|]).
    intros evs w'' Hrun.
    eapply VolatileFacts.v_run_silent; [exact Hrun | congruence | lia].
  - intros w url Hact Hu.
    assert (Hne : url <> EmptyString) by (intros ->; discriminate).
    unfold Durable.activates in Hact. cbn.
    destruct (Durable.phase w) as [|url0|] eqn:Hp; [| |discriminate].
    + eexists. split; [reflexivity|].
      unfold Durable.effect. rewrite Hu.
      destruct w; cbn; rewrite <- ?app_assoc.
      split; [reflexivity | apply lookup_insert_eq].
    + destruct (decide (url0 = url)) as [->|Hne'];
        [now rewrite bool_decide_eq_true_2 in Hact|].
      eexists. split; [reflexivity|].
      unfold Durable.effect. rewrite Hu.
      destruct w; cbn; rewrite <- ?app_assoc.
      split; [reflexivity | apply lookup_insert_eq].
  - intros w op url V Hreach Hp Hs Ht.
    pose proof (DurableFacts.d_reachable_wf _ Hreach op ltac:(eauto)) as Hlt.
    eexists. split.
    { cbn. rewrite Hp. cbn. rewrite (truthy_lookup_hit _ _ Hs Ht). reflexivity. }
    repeat split.
    intros evs w'' Hrun.
    eapply DurableFacts.d_run_silent; [exact Hrun | | exact Hlt].
    cbn. apply lookup_delete_eq.
Qed.

Lemma C4_witness :
  (let w := Volatile.after {[ "u" := JArr [JNum 1] ]} [] in
   exists w',
     Volatile.step w (Volatile.Render (Some "u")) = Some w' /\
     Volatile.trace w'
     = Volatile.trace w ++
       [Dispatch 0 act_loading; CacheRead 0 "u"; CacheRead 0 "u";
        Dispatch 0 (act_fetched (JArr [JNum 1]))] /\
     Volatile.state w'
     = {| data := Some (JArr [JNum 1]); error := None;
          isLoading := Some false |} /\
     Volatile.cache w' = Volatile.cache w /\
     forall evs w'',
       Volatile.run w' evs = Some w'' ->
       exists obs, Volatile.trace w'' = Volatile.trace w' ++ obs /\
                   Forall (fun o => obs_op o <> 0%nat) obs) /\
  (let w := Durable.after {[ "u" := JArr [JNum 1] ]} [] in
   exists w',
     Durable.step w (Durable.Render "u") = Some w' /\
     Durable.trace w'
     = Durable.trace w ++ [Dispatch 0 act_loading; CacheRead 0 "u"] /\
     Durable.pending w' !! 0%nat = Some ("u", Durable.AwaitGet)) /\
  (let w := Durable.after {[ "u" := JArr [JNum 1] ]} [Durable.Render "u"] in
   exists w',
     Durable.step w (Durable.Resolve 0 Durable.Got) = Some w' /\
     Durable.trace w'
     = Durable.trace w ++ [Dispatch 0 (act_fetched (JArr [JNum 1]))] /\
     Durable.state w'
     = {| data := Some (JArr [JNum 1]); error := None;
          isLoading := Some false |} /\
     Durable.store w' = Durable.store w /\
     forall evs w'',
       Durable.run w' evs = Some w'' ->
       exists obs, Durable.trace w'' = Durable.trace w' ++ obs /\
                   Forall (fun o => obs_op o <> 0%nat) obs).
Proof.
  split; [|split]; intros w.
  - apply (proj1 C4_truthy_cache_hit_skips_transport w (Some "u") "u"
             (JArr [JNum 1])); try (vm_compute; reflexivity).
    subst w; reached.
  - apply (proj1 (proj2 C4_truthy_cache_hit_skips_transport) w "u");
      vm_compute; reflexivity.
  - apply (proj2 (proj2 C4_truthy_cache_hit_skips_transport) w 0%nat "u"
             (JArr [JNum 1])); try (vm_compute; reflexivity).
    subst w; reached.
Defined.

(** C4 as stated fails: the cache holds the value 0 for "u", as it does
    after a fetch of "u" whose body was the number 0.  The value is falsy,
    so activating the hook with "u" invokes Transport and leaves the state at
    ['loading']. *)
Lemma C4_counterexample :
  Volatile.cache (Volatile.init {[ "u" := JNum 0 ]}) !! "u" = Some (JNum 0) /\
  Volatile.trace
    (Volatile.after {[ "u" := JNum 0 ]} [Volatile.Render (Some "u")])
  = [Dispatch 0 act_loading; CacheRead 0 "u"; Transport 0 "u"] /\
  Volatile.state
    (Volatile.after {[ "u" := JNum 0 ]} [Volatile.Render (Some "u")])
  = {| data := None; error := None; isLoading := Some true |} /\
  Volatile.pending
    (Volatile.after {[ "u" := JNum 0 ]} [Volatile.Render (Some "u")]) !! 0%nat
  = Some ("u", Volatile.AwaitFetch).
Proof. repeat split; vm_compute; reflexivity. Qed.

(** C5: when Transport succeeds with payload P for an operation on [url],
    the write of [(url, P)] comes before the dispatch of ['fetched'].  In the
    volatile hook the body's continuation assigns [cache[url] = P] and only
    then dispatches, so the trace grows by the write followed by the dispatch
    (or by the write alone when the flag is set) and the cache holds P.  In
    the durable hook ['fetched'] is dispatched only once [setItem(url, P)],
    logged earlier in the trace, has resolved, and the store holds P at that
    moment.  In both hooks, whenever a step dispatches ['fetched'] with a
    payload, the cache holds that payload under the operation's identifier
    right after the step. *)
Theorem C5_cache_written_before_fetched :
  (forall w op url P,
     Volatile.pending w !! op = Some (url, Volatile.AwaitJson) ->
     exists w',
       Volatile.step w (Volatile.Resolve op (Volatile.Body P)) = Some w' /\
       Volatile.cache w' !! url = Some P /\
       Volatile.trace w'
       = Volatile.trace w ++
         CacheWrite op url P ::
         (if Volatile.cancelRequest w then []
          else [Dispatch op (act_fetched P)])) /\
  (forall w op url P,
     Durable.reachable w ->
     Durable.pending w !! op = Some (url, Durable.AwaitSet P) ->
     In (CacheWrite op url P) (Durable.trace w) /\
     exists w',
       Durable.step w (Durable.Resolve op Durable.Stored) = Some w' /\
       Durable.store w' !! url = Some P /\
       Durable.trace w'
       = Durable.trace w ++
         (if Durable.cancelRequest w then []
          else [Dispatch op (act_fetched P)])) /\
  (forall w ev w' obs op P,
     Volatile.step w ev = Some w' ->
     Volatile.trace w' = Volatile.trace w ++ obs ->
     In (Dispatch op (act_fetched P)) obs ->
     exists url,
       (In (CacheRead op url) obs \/ In (CacheWrite op url P) obs) /\
       Volatile.cache w' !! url = Some P) /\
  (forall w ev w' obs op P,
     Durable.step w ev = Some w' ->
     Durable.trace w' = Durable.trace w ++ obs ->
     In (Dispatch op (act_fetched P)) obs ->
     exists url,
       (Durable.pending w !! op = Some (url, Durable.AwaitGet) \/
        Durable.pending w !! op = Some (url, Durable.AwaitSet P)) /\
       Durable.store w' !! url = Some P).
Proof.
  split; [|split; [|split]].
  - intros w op url P Hp.
    eexists. split; [cbn; rewrite Hp; reflexivity|].
    destruct w as [s c p ca pe n t]. destruct c; cbn;
      rewrite <- ?app_assoc; (split; [apply lookup_insert_eq | reflexivity]).
  - intros w op url P Hreach Hp.
    split; [now apply (DurableFacts.d_reachable_set_logged _ Hreach)|].
    eexists. split; [cbn; rewrite Hp; reflexivity|].
    destruct w as [s c p ca pe n t]. destruct c; cbn;
      rewrite ?app_nil_r; (split; [apply lookup_insert_eq | reflexivity]).
  - intros w ev w' obs op P H.
    destruct w as [s c p ca pe n t].
    destruct ev as [url| |k r]; VolatileFacts.step_cases H; intros Htr Hin;
      rewrite <- ?app_assoc in Htr;
      try (apply app_inv_head in Htr; subst obs);
      try (rewrite <- (app_nil_r t) in Htr at 1;
           apply app_inv_head in Htr; subst obs);
      cbn in Hin; intuition (try discriminate); simplify_eq.
    all: try match goal with
             | Hl : truthy_lookup _ = Some _ |- _ =>
                 apply truthy_lookup_Some in Hl as [Hl _]
             end.
    all: eexists; (split; [|first [eassumption | apply lookup_insert_eq]]);
      cbn; tauto.
  - intros w ev w' obs op P H.
    destruct w as [s c p ca pe n t].
    destruct ev as [url| |k r]; DurableFacts.step_cases H; intros Htr Hin;
      rewrite <- ?app_assoc in Htr;
      try (apply app_inv_head in Htr; subst obs);
      try (rewrite <- (app_nil_r t) in Htr at 1;
           apply app_inv_head in Htr; subst obs);
      cbn in Hin; intuition (try discriminate); simplify_eq.
    all: try match goal with
             | Hl : truthy_lookup _ = Some _ |- _ =>
                 apply truthy_lookup_Some in Hl as [Hl _]
             end.
    all: eexists; (split; [|first [eassumption | apply lookup_insert_eq]]);
      cbn; tauto.
Qed.

Lemma C5_witness :
  (let w := Volatile.after ∅
              [Volatile.Render (Some "u");
               Volatile.Resolve 0 (Volatile.Response true "OK")] in
   exists w',
     Volatile.step w (Volatile.Resolve 0 (Volatile.Body (JArr [JNum 1])))
     = Some w' /\
     Volatile.cache w' !! "u" = Some (JArr [JNum 1]) /\
     Volatile.trace w'
     = Volatile.trace w ++
       [CacheWrite 0 "u" (JArr [JNum 1]);
        Dispatch 0 (act_fetched (JArr [JNum 1]))]) /\
  (let w := Durable.after ∅
              [Durable.Render "u"; Durable.Resolve 0 Durable.Got;
               Durable.Resolve 0 (Durable.Response true "OK");
               Durable.Resolve 0 (Durable.Body (JArr [JNum 1]))] in
   In (CacheWrite 0 "u" (JArr [JNum 1])) (Durable.trace w) /\
   exists w',
     Durable.step w (Durable.Resolve 0 Durable.Stored) = Some w' /\
     Durable.store w' !! "u" = Some (JArr [JNum 1]) /\
     Durable.trace w'
     = Durable.trace w ++ [Dispatch 0 (act_fetched (JArr [JNum 1]))]) /\
  (exists url,
     (In (CacheRead 0 url)
        [CacheWrite 0 "u" (JArr [JNum 1]);
         Dispatch 0 (act_fetched (JArr [JNum 1]))] \/
      In (CacheWrite 0 url (JArr [JNum 1]))
        [CacheWrite 0 "u" (JArr [JNum 1]);
         Dispatch 0 (act_fetched (JArr [JNum 1]))]) /\
     Volatile.cache
       (Volatile.after ∅
          [Volatile.Render (Some "u");
           Volatile.Resolve 0 (Volatile.Response true "OK");
           Volatile.Resolve 0 (Volatile.Body (JArr [JNum 1]))]) !! url
     = Some (JArr [JNum 1])) /\
  (exists url,
     (Durable.pending
        (Durable.after {[ "u" := JArr [JNum 1] ]} [Durable.Render "u"]) !! 0%nat
      = Some (url, Durable.AwaitGet) \/
      Durable.pending
        (Durable.after {[ "u" := JArr [JNum 1] ]} [Durable.Render "u"]) !! 0%nat
      = Some (url, Durable.AwaitSet (JArr [JNum 1]))) /\
     Durable.store
       (Durable.after {[ "u" := JArr [JNum 1] ]}
          [Durable.Render "u"; Durable.Resolve 0 Durable.Got]) !! url
     = Some (JArr [JNum 1])).
Proof.
  split; [|split; [|split]]; try intros w.
  - apply (proj1 C5_cache_written_before_fetched w 0%nat "u" (JArr [JNum 1])).
    vm_compute; reflexivity.
  - apply (proj1 (proj2 C5_cache_written_before_fetched) w 0%nat "u"
             (JArr [JNum 1])).
    + subst w; reached.
    + vm_compute; reflexivity.
  - apply (proj1 (proj2 (proj2 C5_cache_written_before_fetched))
             (Volatile.after ∅
                [Volatile.Render (Some "u");
                 Volatile.Resolve 0 (Volatile.Response true "OK")])
             (Volatile.Resolve 0 (Volatile.Body (JArr [JNum 1])))).
    + vm_compute; reflexivity.
    + vm_compute; reflexivity.
    + right; left; reflexivity.
  - apply (proj2 (proj2 (proj2 C5_cache_written_before_fetched))
             (Durable.after {[ "u" := JArr [JNum 1] ]} [Durable.Render "u"])
             (Durable.Resolve 0 Durable.Got) _
             [Dispatch 0 (act_fetched (JArr [JNum 1]))]).
    + vm_compute; reflexivity.
    + vm_compute; reflexivity.
    + left; reflexivity.
Defined.



(** C8, as the code has it: the effect returns at once for an empty or
    absent identifier ("do nothing if the url is not given").  Such an
    activation dispatches nothing, invokes Transport zero times and reads or
    writes the cache zero times: the trace, the cache and the suspended
    operations are untouched and the reducer state stays exactly as it was,
    which is the initial state when the hook is mounted that way. *)
Theorem C8_empty_identifier_does_nothing :
  (forall w url w',
     truthy_url url = None ->
     Volatile.step w (Volatile.Render url) = Some w' ->
     Volatile.state w' = Volatile.state w /\
     Volatile.trace w' = Volatile.trace w /\
     Volatile.cache w' = Volatile.cache w /\
     Volatile.pending w' = Volatile.pending w) /\
  (forall c url,
     truthy_url url = None ->
     exists w',
       Volatile.step (Volatile.init c) (Volatile.Render url) = Some w' /\
       Volatile.state w' = Volatile.initialState /\
       Volatile.trace w' = []) /\
  (forall w w',
     Durable.step w (Durable.Render EmptyString) = Some w' ->
     Durable.state w' = Durable.state w /\
     Durable.trace w' = Durable.trace w /\
     Durable.store w' = Durable.store w /\
     Durable.pending w' = Durable.pending w) /\
  (forall c,
     exists w',
       Durable.step (Durable.init c) (Durable.Render EmptyString) = Some w' /\
       Durable.state w' = Durable.initialState /\
       Durable.trace w' = []).
Proof.
  split; [|split; [|split]].
  - intros w url w' Hu H. destruct w as [s c p ca pe n t].
    VolatileFacts.eval_world. rewrite Hu in H.
    VolatileFacts.step_cases H; repeat split.
  - intros c url Hu. eexists. split; [reflexivity|].
    unfold Volatile.effect. rewrite Hu. repeat split.
  - intros w w' H. destruct w as [s c p ca pe n t].
    DurableFacts.step_cases H; repeat split.
  - intros c. eexists. repeat split.
Qed.

Lemma C8_witness :
  let w := Volatile.after {[ "a" := JArr [JNum 1] ]} [Volatile.Render (Some "a")] in
  let w' := Volatile.after {[ "a" := JArr [JNum 1] ]}
              [Volatile.Render (Some "a"); Volatile.Render None] in
  (Volatile.state w' = Volatile.state w /\
   Volatile.trace w' = Volatile.trace w /\
   Volatile.cache w' = Volatile.cache w /\
   Volatile.pending w' = Volatile.pending w) /\
  (exists w0,
     Volatile.step (Volatile.init ∅) (Volatile.Render (Some EmptyString))
     = Some w0 /\
     Volatile.state w0 = Volatile.initialState /\
     Volatile.trace w0 = []) /\
  (let d := Durable.after {[ "a" := JArr [JNum 1] ]}
              [Durable.Render "a"; Durable.Resolve 0 Durable.Got] in
   let d' := Durable.after {[ "a" := JArr [JNum 1] ]}
               [Durable.Render "a"; Durable.Resolve 0 Durable.Got;
                Durable.Render EmptyString] in
   Durable.state d' = Durable.state d /\
   Durable.trace d' = Durable.trace d /\
   Durable.store d' = Durable.store d /\
   Durable.pending d' = Durable.pending d).
Proof.
  intros w w'. split; [|split].
  - apply (proj1 C8_empty_identifier_does_nothing w None w');
      vm_compute; reflexivity.
  - apply (proj1 (proj2 C8_empty_identifier_does_nothing) ∅ (Some EmptyString)).
    reflexivity.
  - intros d d'.
    apply (proj1 (proj2 (proj2 C8_empty_identifier_does_nothing)) d d').
    vm_compute; reflexivity.
Defined.

(** C8 as stated fails when the hook is not idle: the cache holds [[1]] for
    "a", the hook is mounted with "a" and then rendered without an
    identifier.  The state stays ['fetched'] with the data of "a"; it is not
    brought back to the initial state. *)
Lemma C8_counterexample :
  Volatile.state
    (Volatile.after {[ "a" := JArr [JNum 1] ]}
       [Volatile.Render (Some "a"); Volatile.Render None])
  = {| data := Some (JArr [JNum 1]); error := None; isLoading := Some false |} /\
  Volatile.state
    (Volatile.after {[ "a" := JArr [JNum 1] ]}
       [Volatile.Render (Some "a"); Volatile.Render None])
  <> Volatile.initialState /\
  Volatile.phase
    (Volatile.after {[ "a" := JArr [JNum 1] ]}
       [Volatile.Render (Some "a"); Volatile.Render None])
  = Volatile.Mounted None false.
Proof. repeat split; try (vm_compute; reflexivity). vm_compute. discriminate. Qed.

(** C9: the cache write of a successful Transport call happens before the
    flag is looked at.  In the volatile hook, when the body P of an operation
    on [url] arrives with the flag set, [cache[url] = P] is still performed,
    nothing is dispatched and the state stays as it was, so a lookup of [url]
    gives P.  In the durable hook [setItem(url, P)] is called whatever the
    flag is; when it resolves with the flag set the store holds P, nothing is
    dispatched and the state stays as it was. *)
Theorem C9_cancelled_operation_still_writes_cache :
  (forall w op url P,
     Volatile.cancelRequest w = true ->
     Volatile.pending w !! op = Some (url, Volatile.AwaitJson) ->
     exists w',
       Volatile.step w (Volatile.Resolve op (Volatile.Body P)) = Some w' /\
       Volatile.trace w' = Volatile.trace w ++ [CacheWrite op url P] /\
       Volatile.cache w' !! url = Some P /\
       Volatile.state w' = Volatile.state w) /\
  (forall w op url P,
     Durable.pending w !! op = Some (url, Durable.AwaitJson) ->
     exists w',
       Durable.step w (Durable.Resolve op (Durable.Body P)) = Some w' /\
       Durable.trace w' = Durable.trace w ++ [CacheWrite op url P] /\
       Durable.pending w' !! op = Some (url, Durable.AwaitSet P) /\
       Durable.state w' = Durable.state w) /\
  (forall w op url P,
     Durable.cancelRequest w = true ->
     Durable.pending w !! op = Some (url, Durable.AwaitSet P) ->
     exists w',
       Durable.step w (Durable.Resolve op Durable.Stored) = Some w' /\
       Durable.trace w' = Durable.trace w /\
       Durable.store w' !! url = Some P /\
       Durable.state w' = Durable.state w).
Proof.
  split; [|split].
  - intros w op url P Hc Hp.
    eexists. split; [cbn; rewrite Hp; reflexivity|].
    destruct w as [s c p ca pe n t]. cbn in Hc. subst c. cbn.
    split; [reflexivity|]. split; [apply lookup_insert_eq | reflexivity].
  - intros w op url P Hp.
    eexists. split; [cbn; rewrite Hp; reflexivity|].
    destruct w as [s c p ca pe n t]. cbn.
    split; [reflexivity|]. split; [apply lookup_insert_eq | reflexivity].
  - intros w op url P Hc Hp.
    eexists. split; [cbn; rewrite Hp; reflexivity|].
    destruct w as [s c p ca pe n t]. cbn in Hc. subst c. cbn.
    split; [reflexivity|]. split; [apply lookup_insert_eq | reflexivity].
Qed.

Lemma C9_witness :
  (let w := Volatile.after ∅
              [Volatile.Render (Some "a"); Volatile.Unmount;
               Volatile.Resolve 0 (Volatile.Response true "OK")] in
   exists w',
     Volatile.step w (Volatile.Resolve 0 (Volatile.Body (JArr [JNum 1])))
     = Some w' /\
     Volatile.trace w'
     = Volatile.trace w ++ [CacheWrite 0 "a" (JArr [JNum 1])] /\
     Volatile.cache w' !! "a" = Some (JArr [JNum 1]) /\
     Volatile.state w' = Volatile.state w) /\
  (let w := Durable.after ∅
              [Durable.Render "a"; Durable.Resolve 0 Durable.Got;
               Durable.Unmount;
               Durable.Resolve 0 (Durable.Response true "OK")] in
   exists w',
     Durable.step w (Durable.Resolve 0 (Durable.Body (JArr [JNum 1])))
     = Some w' /\
     Durable.trace w'
     = Durable.trace w ++ [CacheWrite 0 "a" (JArr [JNum 1])] /\
     Durable.pending w' !! 0%nat = Some ("a", Durable.AwaitSet (JArr [JNum 1])) /\
     Durable.state w' = Durable.state w) /\
  (let w := Durable.after ∅
              [Durable.Render "a"; Durable.Resolve 0 Durable.Got;
               Durable.Unmount;
               Durable.Resolve 0 (Durable.Response true "OK");
               Durable.Resolve 0 (Durable.Body (JArr [JNum 1]))] in
   exists w',
     Durable.step w (Durable.Resolve 0 Durable.Stored) = Some w' /\
     Durable.trace w' = Durable.trace w /\
     Durable.store w' !! "a" = Some (JArr [JNum 1]) /\
     Durable.state w' = Durable.state w).
Proof.
  split; [|split]; intros w.
  - apply (proj1 C9_cancelled_operation_still_writes_cache w 0%nat "a"
             (JArr [JNum 1])); vm_compute; reflexivity.
  - apply (proj1 (proj2 C9_cancelled_operation_still_writes_cache) w 0%nat "a"
             (JArr [JNum 1])); vm_compute; reflexivity.
  - apply (proj2 (proj2 C9_cancelled_operation_still_writes_cache) w 0%nat "a"
             (JArr [JNum 1])); vm_compute; reflexivity.
Defined.

(** * Further properties of the hooks *)

Lemma dispatches_app k t1 t2 :
  dispatches k (t1 ++ t2) = dispatches k t1 ++ dispatches k t2.
Proof. apply omap_app. Qed.

Lemma transports_app k t1 t2 :
  transports k (t1 ++ t2) = transports k t1 ++ transports k t2.
Proof. apply omap_app. Qed.

(** Reads the dispatches and Transport calls of one operation off a trace
    that a step has extended. *)
Ltac read_trace :=
  rewrite ?dispatches_app, ?transports_app;
  cbn [dispatches transports omap list_omap dispatch_of transport_of];
  repeat case_decide; subst; try lia;
  rewrite ?app_nil_r.

(** Closes the cases of the per-operation invariant after a step over the
    pending operations [pe]. *)
Ltac op_inv_close pe k Hwf Hinv :=
  rewrite ?lookup_insert, ?lookup_delete;
  repeat case_decide; subst;
  repeat match goal with
         | H : pe !! ?x = Some _ |- _ =>
             lazymatch goal with
             | _ : (x < _)%nat |- _ => fail
             | _ => pose proof (Hwf x ltac:(eauto))
             end
         | H : pe !! ?x = _ |- _ => rewrite H in Hinv
         end;
  try (destruct (pe !! k) as [[? ?]|] eqn:?;
       [ pose proof (Hwf k ltac:(eauto)) |]);
  repeat case_decide; try lia;
  read_trace;
  repeat match goal with
         | H : _ /\ _ |- _ => destruct H
         | H : dispatches _ _ = _ |- _ => rewrite H
         | H : transports _ _ = _ |- _ => rewrite H
         end;
  try (repeat split; first [reflexivity | assumption | lia | cbn; lia ]).

(** Closes the cases of the budget of an operation after a step. *)
Ltac budget_close pe Hwf :=
  repeat match goal with
         | H : pe !! ?x = Some _ |- _ =>
             lazymatch goal with
             | _ : (x < _)%nat |- _ => fail
             | _ => pose proof (Hwf x ltac:(eauto))
             end
         | H : pe !! ?x = _ |- _ => rewrite H
         end;
  cbn; try lia;
  repeat match goal with
         | |- context [match pe !! ?x with _ => _ end] =>
             let E := fresh in
             destruct (pe !! x) as [[? []]|] eqn:E;
             try pose proof (Hwf x ltac:(eauto))
         end;
  repeat case_decide; cbn; try lia.

Lemma v_step_op_inv k w ev w' :
  Volatile.wf w -> v_op_inv k w -> Volatile.step w ev = Some w' -> v_op_inv k w'.
Proof.
  intros Hwf Hinv H. destruct w as [s c p ca pe n t].
  unfold v_op_inv, Volatile.wf in *.
  destruct ev as [url| |op r]; VolatileFacts.step_cases H.
  all: try exact Hinv.
  all: op_inv_close pe k Hwf Hinv.
Qed.

Lemma v_reachable_op_inv k w : Volatile.reachable w -> v_op_inv k w.
Proof.
  intros (c & evs & Hr).
  assert (Hgen : forall evs w0 w1,
            Volatile.wf w0 -> v_op_inv k w0 -> Volatile.run w0 evs = Some w1 ->
            v_op_inv k w1).
  { clear. induction evs as [|ev evs IH]; intros w0 w1 Hwf H0 H; cbn in H.
    - now simplify_eq.
    - destruct (Volatile.step w0 ev) as [w2|] eqn:E; [|discriminate].
      eapply IH; [| |exact H].
      + eapply VolatileFacts.v_step_wf; eassumption.
      + eapply v_step_op_inv; eassumption. }
  eapply Hgen; [| |exact Hr].
  - apply VolatileFacts.v_reachable_wf. now exists c, [].
  - unfold v_op_inv. cbn. rewrite lookup_empty. case_decide; [lia|]. now split.
Qed.

Lemma d_step_op_inv k w ev w' :
  Durable.wf w -> d_op_inv k w -> Durable.step w ev = Some w' -> d_op_inv k w'.
Proof.
  intros Hwf Hinv H. destruct w as [s c p ca pe n t].
  unfold d_op_inv, Durable.wf in *.
  destruct ev as [url| |op r]; DurableFacts.step_cases H.
  all: try exact Hinv.
  all: op_inv_close pe k Hwf Hinv.
Qed.

Lemma d_reachable_op_inv k w : Durable.reachable w -> d_op_inv k w.
Proof.
  intros (c & evs & Hr).
  assert (Hgen : forall evs w0 w1,
            Durable.wf w0 -> d_op_inv k w0 -> Durable.run w0 evs = Some w1 ->
            d_op_inv k w1).
  { clear. induction evs as [|ev evs IH]; intros w0 w1 Hwf H0 H; cbn in H.
    - now simplify_eq.
    - destruct (Durable.step w0 ev) as [w2|] eqn:E; [|discriminate].
      eapply IH; [| |exact H].
      + eapply DurableFacts.d_step_wf; eassumption.
      + eapply d_step_op_inv; eassumption. }
  eapply Hgen; [| |exact Hr].
  - apply DurableFacts.d_reachable_wf. now exists c, [].
  - unfold d_op_inv. cbn. rewrite lookup_empty. case_decide; [lia|]. now split.
Qed.

Lemma v_step_budget k w ev w' :
  Volatile.wf w -> Volatile.step w ev = Some w' ->
  (v_budget k w' + (if v_resolves k ev then 1 else 0) <= v_budget k w)%nat.
Proof.
  intros Hwf H. destruct w as [s c p ca pe n t].
  unfold v_budget, Volatile.wf in *.
  destruct ev as [url| |op r]; VolatileFacts.step_cases H; cbn [v_resolves];
    try lia.
  all: rewrite ?lookup_insert, ?lookup_delete.
  all: try (destruct (Nat.eqb_spec op k); subst).
  all: repeat case_decide; subst; try lia; try congruence.
  all: budget_close pe Hwf.
Qed.

Lemma v_run_budget k evs : forall w w',
  Volatile.wf w -> Volatile.run w evs = Some w' ->
  (v_budget k w' + v_resolutions k evs <= v_budget k w)%nat.
Proof.
  induction evs as [|ev evs IH]; intros w w' Hwf H; cbn in H.
  - simplify_eq. cbn. lia.
  - destruct (Volatile.step w ev) as [w1|] eqn:E; [|discriminate].
    pose proof (v_step_budget k _ _ _ Hwf E) as H1.
    pose proof (IH _ _ (VolatileFacts.v_step_wf _ _ _ Hwf E) H) as H2.
    unfold v_resolutions in *. cbn [List.filter].
    destruct (v_resolves k ev); cbn [length]; lia.
Qed.

Lemma d_step_budget k w ev w' :
  Durable.wf w -> Durable.step w ev = Some w' ->
  (d_budget k w' + (if d_resolves k ev then 1 else 0) <= d_budget k w)%nat.
Proof.
  intros Hwf H. destruct w as [s c p ca pe n t].
  unfold d_budget, Durable.wf in *.
  destruct ev as [url| |op r]; DurableFacts.step_cases H; cbn [d_resolves];
    try lia.
  all: rewrite ?lookup_insert, ?lookup_delete.
  all: try (destruct (Nat.eqb_spec op k); subst).
  all: repeat case_decide; subst; try lia; try congruence.
  all: budget_close pe Hwf.
Qed.

Lemma d_run_budget k evs : forall w w',
  Durable.wf w -> Durable.run w evs = Some w' ->
  (d_budget k w' + d_resolutions k evs <= d_budget k w)%nat.
Proof.
  induction evs as [|ev evs IH]; intros w w' Hwf H; cbn in H.
  - simplify_eq. cbn. lia.
  - destruct (Durable.step w ev) as [w1|] eqn:E; [|discriminate].
    pose proof (d_step_budget k _ _ _ Hwf E) as H1.
    pose proof (IH _ _ (DurableFacts.d_step_wf _ _ _ Hwf E) H) as H2.
    unfold d_resolutions in *. cbn [List.filter].
    destruct (d_resolves k ev); cbn [length]; lia.
Qed.

Lemma v_step_cache w ev w' :
  Volatile.step w ev = Some w' ->
  Volatile.cache w' = Volatile.cache w \/
  exists op url P,
    ev = Volatile.Resolve op (Volatile.Body P) /\
    Volatile.pending w !! op = Some (url, Volatile.AwaitJson) /\
    Volatile.cache w' = <[url := P]> (Volatile.cache w).
Proof.
  intros H. destruct w as [s c p ca pe n t].
  destruct ev as [url| |op r]; VolatileFacts.step_cases H;
    first [ now left | right; eauto 8 ].
Qed.

Lemma d_step_store w ev w' :
  Durable.step w ev = Some w' ->
  Durable.store w' = Durable.store w \/
  exists op url P,
    ev = Durable.Resolve op Durable.Stored /\
    Durable.pending w !! op = Some (url, Durable.AwaitSet P) /\
    Durable.store w' = <[url := P]> (Durable.store w).
Proof.
  intros H. destruct w as [s c p ca pe n t].
  destruct ev as [url| |op r]; DurableFacts.step_cases H;
    first [ now left | right; eauto 8 ].
Qed.

Lemma v_run_cache_keys evs : forall w w' k,
  Volatile.run w evs = Some w' ->
  is_Some (Volatile.cache w !! k) -> is_Some (Volatile.cache w' !! k).
Proof.
  induction evs as [|ev evs IH]; intros w w' k H Hk; cbn in H.
  - now simplify_eq.
  - destruct (Volatile.step w ev) as [w1|] eqn:E; [|discriminate].
    eapply IH; [exact H|].
    destruct (v_step_cache _ _ _ E) as [->|(op & url & P & _ & _ & ->)];
      [exact Hk|].
    apply lookup_insert_is_Some'. now right.
Qed.

Lemma d_run_store_keys evs : forall w w' k,
  Durable.run w evs = Some w' ->
  is_Some (Durable.store w !! k) -> is_Some (Durable.store w' !! k).
Proof.
  induction evs as [|ev evs IH]; intros w w' k H Hk; cbn in H.
  - now simplify_eq.
  - destruct (Durable.step w ev) as [w1|] eqn:E; [|discriminate].
    eapply IH; [exact H|].
    destruct (d_step_store _ _ _ E) as [->|(op & url & P & _ & _ & ->)];
      [exact Hk|].
    apply lookup_insert_is_Some'. now right.
Qed.

Lemma reducer_run_last reducer s0 acts :
  (forall s s' a, reducer s a = reducer s' a) ->
  reducer_run reducer s0 acts = state_of_last reducer s0 acts.
Proof.
  intros Hfree. unfold state_of_last.
  induction acts as [|a acts _] using rev_ind; [reflexivity|].
  rewrite reducer_run_snoc, last_snoc. apply Hfree.
Qed.

Lemma v_reachable_state w :
  Volatile.reachable w ->
  Volatile.state w
  = state_of_last Volatile.fetchReducer Volatile.initialState
      (dispatched (Volatile.trace w)).
Proof.
  intros (c & evs & Hr).
  destruct (VolatileFacts.v_run_obs _ _ _ Hr) as (obs & Ht & ->).
  cbn in Ht. rewrite Ht. apply reducer_run_last. intros s s' a. now destruct a.
Qed.

Lemma d_reachable_state w :
  Durable.reachable w ->
  Durable.state w
  = state_of_last Durable.fetchReducer Durable.initialState
      (dispatched (Durable.trace w)).
Proof.
  intros (c & evs & Hr).
  destruct (DurableFacts.d_run_obs _ _ _ Hr) as (obs & Ht & ->).
  cbn in Ht. rewrite Ht. apply reducer_run_last. intros s s' a. now destruct a.
Qed.

Lemma v_reachable_cleared w :
  Volatile.reachable w ->
  (forall u, Volatile.phase w = Volatile.Mounted u false -> truthy_url u = None) /\
  (v_cleared w = true ->
   Volatile.cancelRequest w = true \/ Volatile.pending w = ∅) /\
  (Volatile.phase w = Volatile.Fresh -> Volatile.pending w = ∅).
Proof.
  revert w. apply VolatileFacts.v_reachable_ind.
  - intros c. repeat split; discriminate.
  - intros w ev w' (H1 & H2 & H3) H. destruct w as [s c p ca pe n t].
    unfold v_cleared in *.
    destruct ev as [url| |op r]; VolatileFacts.step_cases H.
    all: repeat split; intros; simplify_eq; eauto.
    all: try match goal with
             | H : truthy_url ?u = _ |- context [truthy_url ?u] => rewrite H
             | H : truthy_url ?u = _, H' : context [truthy_url ?u] |- _ =>
                 rewrite H in H'
             end; try discriminate; eauto.
    all: try (specialize (H1 _ eq_refl)).
    all: repeat match goal with
                | H : truthy_url ?u = _, H' : context [truthy_url ?u] |- _ =>
                    rewrite H in H'
                end.
    all: try (specialize (H2 ltac:(first [assumption | reflexivity])));
      try (specialize (H3 ltac:(first [assumption | reflexivity]))).
    all: try (destruct H2 as [H2|H2]); subst; rewrite ?lookup_empty in *;
      try discriminate; auto.
Qed.

Lemma d_reachable_cleared w :
  Durable.reachable w ->
  (d_cleared w = true ->
   Durable.cancelRequest w = true \/ Durable.pending w = ∅) /\
  (Durable.phase w = Durable.Fresh -> Durable.pending w = ∅).
Proof.
  revert w. apply DurableFacts.d_reachable_ind.
  - intros c. repeat split; discriminate.
  - intros w ev w' (H2 & H3) H. destruct w as [s c p ca pe n t].
    unfold d_cleared in *.
    destruct ev as [url| |op r]; DurableFacts.step_cases H.
    all: repeat split; intros; simplify_eq; eauto.
    all: repeat match goal with
                | H : truthy_url ?u = _, H' : context [truthy_url ?u] |- _ =>
                    rewrite H in H'
                end.
    all: try (specialize (H2 ltac:(first [assumption | reflexivity])));
      try (specialize (H3 ltac:(first [assumption | reflexivity]))).
    all: try (destruct H2 as [H2|H2]); subst; rewrite ?lookup_empty in *;
      try discriminate; auto.
Qed.

Lemma silent_obs k obs :
  Forall (fun o => obs_op o <> k) obs ->
  dispatches k obs = [] /\ transports k obs = [].
Proof.
  induction 1 as [|o obs Ho _ [IHd IHt]]; [now split|].
  unfold dispatches, transports in *. cbn [omap list_omap].
  rewrite IHd, IHt.
  destruct o; cbn in Ho |- *; try case_decide; try congruence; now split.
Qed.

(** C2, as the code has it: the durable hook has no fallback from a failed
    read of the store to Transport.  When [getItem] rejects, the operation
    does not go on as after a miss: whatever happens afterwards, Transport is
    never invoked for that operation and the operation never dispatches
    ['fetched']. *)
Theorem C2_store_read_failure_has_no_fallback :
  forall w op url e,
    Durable.reachable w ->
    Durable.pending w !! op = Some (url, Durable.AwaitGet) ->
    exists w',
      Durable.step w (Durable.Resolve op (Durable.GetRejected e)) = Some w' /\
      forall evs w'',
        Durable.run w' evs = Some w'' ->
        transports op (Durable.trace w'') = [] /\
        forall P, ~ In (act_fetched P) (dispatches op (Durable.trace w'')).
Proof.
  intros w op url e Hreach Hp.
  pose proof (DurableFacts.d_reachable_wf _ Hreach op ltac:(eauto)) as Hlt.
  pose proof (d_reachable_op_inv op w Hreach) as Hinv.
  unfold d_op_inv in Hinv. rewrite Hp in Hinv. destruct Hinv as (_ & Hd & Ht).
  eexists. split; [cbn; rewrite Hp; reflexivity|].
  intros evs w'' Hrun.
  destruct (DurableFacts.d_run_silent op evs _ _ Hrun) as (obs & Htr & Hobs).
  { cbn. apply lookup_delete_eq. }
  { exact Hlt. }
  destruct (silent_obs op obs Hobs) as [Hdo Hto].
  rewrite Htr. cbn [Durable.trace Durable.finish Durable.emit Durable.set_pending].
  rewrite !transports_app, !dispatches_app, Hd, Ht, Hdo, Hto.
  cbn [transports dispatches omap list_omap transport_of dispatch_of app].
  split; [reflexivity|].
  intros P [H|[]]. discriminate H.
Qed.

Lemma C2_witness :
  let w := Durable.after ∅ [Durable.Render "u"] in
  exists w',
    Durable.step w
      (Durable.Resolve 0 (Durable.GetRejected (MkError "InvalidStateError")))
    = Some w' /\
    forall evs w'',
      Durable.run w' evs = Some w'' ->
      transports 0 (Durable.trace w'') = [] /\
      forall P, ~ In (act_fetched P) (dispatches 0 (Durable.trace w'')).
Proof.
  intros w.
  apply (C2_store_read_failure_has_no_fallback w 0%nat "u"
           (MkError "InvalidStateError")).
  - subst w; reached.
  - vm_compute; reflexivity.
Defined.

(** X1: in either hook, what one run of [fetchData] dispatches is
    ['loading'] first and then at most one of ['fetched'] and ['error'],
    never both and never twice; while the run is suspended it has dispatched
    ['loading'] and nothing else. *)
Theorem X1_operation_lifecycle :
  (forall w k,
     Volatile.reachable w ->
     (dispatches k (Volatile.trace w) = [] \/
      lifecycle (dispatches k (Volatile.trace w)) = true) /\
     (is_Some (Volatile.pending w !! k) ->
      dispatches k (Volatile.trace w) = [act_loading])) /\
  (forall w k,
     Durable.reachable w ->
     (dispatches k (Durable.trace w) = [] \/
      lifecycle (dispatches k (Durable.trace w)) = true) /\
     (is_Some (Durable.pending w !! k) ->
      dispatches k (Durable.trace w) = [act_loading])).
Proof.
  split; intros w k Hreach.
  - pose proof (v_reachable_op_inv k w Hreach) as Hinv. unfold v_op_inv in Hinv.
    destruct (Volatile.pending w !! k) as [[u st]|].
    + destruct Hinv as (_ & Hd & _). rewrite Hd. split; [now right | auto].
    + split; [|intros [? ?]; discriminate].
      case_decide; [right | left]; apply Hinv.
  - pose proof (d_reachable_op_inv k w Hreach) as Hinv. unfold d_op_inv in Hinv.
    destruct (Durable.pending w !! k) as [[u st]|].
    + destruct Hinv as (_ & Hd & _). rewrite Hd. split; [now right | auto].
    + split; [|intros [? ?]; discriminate].
      case_decide; [right | left]; apply Hinv.
Qed.

Lemma X1_witness :
  lifecycle
    (dispatches 0
       (Volatile.trace
          (Volatile.after ∅
             [Volatile.Render (Some "a"); Volatile.Render (Some "b");
              Volatile.Resolve 0 (Volatile.Response false "Not Found")])))
  = true /\
  dispatches 0
    (Durable.trace (Durable.after ∅ [Durable.Render "a"]))
  = [act_loading].
Proof.
  split.
  - destruct (proj1 (proj1 X1_operation_lifecycle
                       (Volatile.after ∅
                          [Volatile.Render (Some "a"); Volatile.Render (Some "b");
                           Volatile.Resolve 0 (Volatile.Response false "Not Found")])
                       0%nat ltac:(reached))) as [H|H].
    + vm_compute in H. discriminate H.
    + exact H.
  - apply (proj2 (proj2 X1_operation_lifecycle
                    (Durable.after ∅ [Durable.Render "a"]) 0%nat ltac:(reached))).
    vm_compute. eexists. reflexivity.
Defined.

(** X2: no run of [fetchData] calls Transport more than once, so a failed
    fetch is never retried by the hook.  A suspended run of the volatile
    hook has made its one call, for its own identifier; a run of the durable
    hook has made none while it waits for [getItem]. *)
Theorem X2_one_transport_call_per_operation :
  (forall w k,
     Volatile.reachable w ->
     (length (transports k (Volatile.trace w)) <= 1)%nat /\
     (forall u st, Volatile.pending w !! k = Some (u, st) ->
                   transports k (Volatile.trace w) = [u])) /\
  (forall w k,
     Durable.reachable w ->
     (length (transports k (Durable.trace w)) <= 1)%nat /\
     (forall u, Durable.pending w !! k = Some (u, Durable.AwaitGet) ->
                transports k (Durable.trace w) = [])).
Proof.
  split; intros w k Hreach.
  - pose proof (v_reachable_op_inv k w Hreach) as Hinv. unfold v_op_inv in Hinv.
    destruct (Volatile.pending w !! k) as [[u st]|].
    + destruct Hinv as (_ & _ & Ht). rewrite Ht. split; [cbn; lia|].
      now intros ? ? [= <- _].
    + split; [|discriminate].
      case_decide; destruct Hinv as [H1 H2]; [exact H2|]. rewrite H2. cbn. lia.
  - pose proof (d_reachable_op_inv k w Hreach) as Hinv. unfold d_op_inv in Hinv.
    destruct (Durable.pending w !! k) as [[u st]|].
    + destruct Hinv as (_ & _ & Ht). rewrite Ht. split.
      * destruct st; cbn; lia.
      * now intros ? [= -> ->].
    + split; [|discriminate].
      case_decide; destruct Hinv as [H1 H2]; [exact H2|]. rewrite H2. cbn. lia.
Qed.

Lemma X2_witness :
  (length
     (transports 0
        (Volatile.trace
           (Volatile.after ∅
              [Volatile.Render (Some "a");
               Volatile.Resolve 0 (Volatile.FetchRejected (MkError "offline"))])))
   <= 1)%nat /\
  transports 0 (Durable.trace (Durable.after ∅ [Durable.Render "a"])) = [].
Proof.
  split.
  - apply (proj1 X2_one_transport_call_per_operation). reached.
  - apply (proj2 (proj2 X2_one_transport_call_per_operation
                    (Durable.after ∅ [Durable.Render "a"]) 0%nat ltac:(reached))
             "a").
    vm_compute; reflexivity.
Defined.

(** X3: every run of [fetchData] is over after at most two resolutions in
    the volatile hook (the response, the body) and at most four in the
    durable hook (the read, the response, the body, the write): no run of
    events resumes one operation more often. *)
Theorem X3_operation_settles_within_bound :
  (forall c evs w k,
     Volatile.run (Volatile.init c) evs = Some w ->
     (v_resolutions k evs <= 2)%nat) /\
  (forall c evs w k,
     Durable.run (Durable.init c) evs = Some w ->
     (d_resolutions k evs <= 4)%nat).
Proof.
  split; intros c evs w k H.
  - assert (Hwf : Volatile.wf (Volatile.init c))
      by (apply VolatileFacts.v_reachable_wf; now exists c, []).
    pose proof (v_run_budget k evs _ _ Hwf H) as Hb.
    unfold v_budget in Hb at 2. cbn in Hb. rewrite lookup_empty in Hb.
    case_decide; lia.
  - assert (Hwf : Durable.wf (Durable.init c))
      by (apply DurableFacts.d_reachable_wf; now exists c, []).
    pose proof (d_run_budget k evs _ _ Hwf H) as Hb.
    unfold d_budget in Hb at 2. cbn in Hb. rewrite lookup_empty in Hb.
    case_decide; lia.
Qed.

Lemma X3_witness :
  (v_resolutions 0
     [Volatile.Render (Some "a");
      Volatile.Resolve 0 (Volatile.Response true "OK");
      Volatile.Resolve 0 (Volatile.Body (JNum 1))] <= 2)%nat /\
  (d_resolutions 0
     [Durable.Render "a"; Durable.Resolve 0 Durable.Got;
      Durable.Resolve 0 (Durable.Response true "OK");
      Durable.Resolve 0 (Durable.Body (JNum 1));
      Durable.Resolve 0 Durable.Stored] <= 4)%nat.
Proof.
  split.
  - apply (proj1 X3_operation_settles_within_bound ∅ _
             (Volatile.after ∅
                [Volatile.Render (Some "a");
                 Volatile.Resolve 0 (Volatile.Response true "OK");
                 Volatile.Resolve 0 (Volatile.Body (JNum 1))])).
    vm_compute; reflexivity.
  - apply (proj2 X3_operation_settles_within_bound ∅ _
             (Durable.after ∅
                [Durable.Render "a"; Durable.Resolve 0 Durable.Got;
                 Durable.Resolve 0 (Durable.Response true "OK");
                 Durable.Resolve 0 (Durable.Body (JNum 1));
                 Durable.Resolve 0 Durable.Stored])).
    vm_compute; reflexivity.
Defined.

(** X4: the hooks only ever add to their cache.  A step changes the cache
    of the volatile hook only when the body of an operation arrives, and
    then only under that operation's own identifier; a step changes the
    store of the durable hook only when the [setItem] of an operation
    resolves, likewise.  No run removes a key. *)
Theorem X4_cache_changes_only_under_own_identifier :
  (forall w ev w',
     Volatile.step w ev = Some w' ->
     Volatile.cache w' = Volatile.cache w \/
     exists op url P,
       ev = Volatile.Resolve op (Volatile.Body P) /\
       Volatile.pending w !! op = Some (url, Volatile.AwaitJson) /\
       Volatile.cache w' = <[url := P]> (Volatile.cache w)) /\
  (forall w ev w',
     Durable.step w ev = Some w' ->
     Durable.store w' = Durable.store w \/
     exists op url P,
       ev = Durable.Resolve op Durable.Stored /\
       Durable.pending w !! op = Some (url, Durable.AwaitSet P) /\
       Durable.store w' = <[url := P]> (Durable.store w)) /\
  (forall w evs w' k,
     Volatile.run w evs = Some w' ->
     is_Some (Volatile.cache w !! k) -> is_Some (Volatile.cache w' !! k)) /\
  (forall w evs w' k,
     Durable.run w evs = Some w' ->
     is_Some (Durable.store w !! k) -> is_Some (Durable.store w' !! k)).
Proof.
  split; [|split; [|split]].
  - apply v_step_cache.
  - apply d_step_store.
  - intros w evs w' k. apply v_run_cache_keys.
  - intros w evs w' k. apply d_run_store_keys.
Qed.

Lemma X4_witness :
  is_Some
    (Volatile.cache
       (Volatile.after {[ "a" := JNum 1 ]}
          [Volatile.Render (Some "b");
           Volatile.Resolve 0 (Volatile.Response true "OK");
           Volatile.Resolve 0 (Volatile.Body (JNum 2))]) !! "a") /\
  is_Some
    (Durable.store
       (Durable.after {[ "a" := JNum 1 ]}
          [Durable.Render "b"; Durable.Resolve 0 Durable.Got;
           Durable.Resolve 0 (Durable.Response true "OK");
           Durable.Resolve 0 (Durable.Body (JNum 2));
           Durable.Resolve 0 Durable.Stored]) !! "a").
Proof.
  split.
  - apply (proj1 (proj2 (proj2 X4_cache_changes_only_under_own_identifier))
             (Volatile.init {[ "a" := JNum 1 ]})
             [Volatile.Render (Some "b");
              Volatile.Resolve 0 (Volatile.Response true "OK");
              Volatile.Resolve 0 (Volatile.Body (JNum 2))]).
    + vm_compute; reflexivity.
    + vm_compute. eexists. reflexivity.
  - apply (proj2 (proj2 (proj2 X4_cache_changes_only_under_own_identifier))
             (Durable.init {[ "a" := JNum 1 ]})
             [Durable.Render "b"; Durable.Resolve 0 Durable.Got;
              Durable.Resolve 0 (Durable.Response true "OK");
              Durable.Resolve 0 (Durable.Body (JNum 2));
              Durable.Resolve 0 Durable.Stored]).
    + vm_compute; reflexivity.
    + vm_compute. eexists. reflexivity.
Defined.

(** X5: the state a hook returns depends on the last dispatched action
    only, whatever was dispatched before: it is the initial state while
    nothing was dispatched, and afterwards what the reducer makes of the
    last action. *)
Theorem X5_state_follows_last_dispatch :
  (forall w,
     Volatile.reachable w ->
     Volatile.state w
     = state_of_last Volatile.fetchReducer Volatile.initialState
         (dispatched (Volatile.trace w))) /\
  (forall w,
     Durable.reachable w ->
     Durable.state w
     = state_of_last Durable.fetchReducer Durable.initialState
         (dispatched (Durable.trace w))).
Proof. split; [apply v_reachable_state | apply d_reachable_state]. Qed.

Lemma X5_witness :
  Volatile.state
    (Volatile.after ∅
       [Volatile.Render (Some "a"); Volatile.Render (Some "b");
        Volatile.Resolve 1 (Volatile.Response false "Not Found");
        Volatile.Resolve 0 (Volatile.Response true "OK");
        Volatile.Resolve 0 (Volatile.Body (JNum 1))])
  = Volatile.fetchReducer Volatile.initialState (act_fetched (JNum 1)) /\
  Durable.state (Durable.after ∅ [Durable.Render "a"])
  = Durable.fetchReducer Durable.initialState act_loading.
Proof.
  split.
  - etransitivity.
    + apply (proj1 X5_state_follows_last_dispatch). reached.
    + vm_compute; reflexivity.
  - etransitivity.
    + apply (proj2 X5_state_follows_last_dispatch). reached.
    + vm_compute; reflexivity.
Defined.

(** X6: once the identifier has been cleared (the last effect run was for
    an empty or absent identifier), the operations still in flight are
    silenced: the cleanup has set the flag and the effect run did not reset
    it, so settling any of them dispatches nothing and leaves the state as it
    was.  In the durable hook this holds for every resolution but that of
    [getItem]. *)
Theorem X6_cleared_identifier_silences_operations :
  (forall w op r w',
     Volatile.reachable w ->
     v_cleared w = true ->
     Volatile.step w (Volatile.Resolve op r) = Some w' ->
     Volatile.state w' = Volatile.state w /\
     dispatched (Volatile.trace w') = dispatched (Volatile.trace w)) /\
  (forall w op r w',
     Durable.reachable w ->
     d_cleared w = true ->
     r <> Durable.Got ->
     Durable.step w (Durable.Resolve op r) = Some w' ->
     Durable.state w' = Durable.state w /\
     dispatched (Durable.trace w') = dispatched (Durable.trace w)).
Proof.
  split.
  - intros w op r w' Hreach Hcl H.
    destruct (v_reachable_cleared w Hreach) as (_ & H2 & _).
    destruct (H2 Hcl) as [Hc|Hp].
    + now destruct (VolatileFacts.v_cancelled_resolve _ _ _ _ Hc H) as (? & ? & _).
    + cbn in H. rewrite Hp, lookup_empty in H. discriminate.
  - intros w op r w' Hreach Hcl Hr H.
    destruct (d_reachable_cleared w Hreach) as (H2 & _).
    destruct (H2 Hcl) as [Hc|Hp].
    + now destruct (DurableFacts.d_cancelled_resolve _ _ _ _ Hc Hr H) as (? & ? & _).
    + cbn in H. rewrite Hp, lookup_empty in H. discriminate.
Qed.

Lemma X6_witness :
  (let w := Volatile.after ∅
              [Volatile.Render (Some "a"); Volatile.Render None;
               Volatile.Resolve 0 (Volatile.Response true "OK")] in
   let w' := Volatile.after ∅
               [Volatile.Render (Some "a"); Volatile.Render None;
                Volatile.Resolve 0 (Volatile.Response true "OK");
                Volatile.Resolve 0 (Volatile.Body (JNum 1))] in
   Volatile.state w' = Volatile.state w /\
   dispatched (Volatile.trace w') = dispatched (Volatile.trace w)) /\
  (let w := Durable.after ∅
              [Durable.Render "a"; Durable.Resolve 0 Durable.Got;
               Durable.Render EmptyString] in
   let w' := Durable.after ∅
               [Durable.Render "a"; Durable.Resolve 0 Durable.Got;
                Durable.Render EmptyString;
                Durable.Resolve 0 (Durable.Response false "Not Found")] in
   Durable.state w' = Durable.state w /\
   dispatched (Durable.trace w') = dispatched (Durable.trace w)).
Proof.
  split; intros w w'.
  - apply (proj1 X6_cleared_identifier_silences_operations w 0%nat
             (Volatile.Body (JNum 1)) w');
      [subst w; reached | vm_compute; reflexivity | vm_compute; reflexivity].
  - apply (proj2 X6_cleared_identifier_silences_operations w 0%nat
             (Durable.Response false "Not Found") w');
      [subst w; reached | vm_compute; reflexivity | discriminate
      | vm_compute; reflexivity].
Defined.

(** X7: a fetch through the durable hook and the next visit.  Starting
    from a store without a truthy entry for a non-empty [url], the read
    misses, Transport answers ok with body P and [setItem] resolves: the hook
    has dispatched ['loading'] and ['fetched'] with P, called Transport once,
    and the store holds P under [url].  A hook mounted afterwards over that
    store with the same [url] is served P by [getItem] without a Transport
    call when P is truthy, and calls Transport again when P is falsy. *)
Theorem X7_durable_fetch_then_revisit c url st P :
  truthy_url (Some url) = Some url ->
  truthy_lookup (c !! url) = None ->
  exists w,
    Durable.run (Durable.init c)
      [Durable.Render url; Durable.Resolve 0 Durable.Got;
       Durable.Resolve 0 (Durable.Response true st);
       Durable.Resolve 0 (Durable.Body P);
       Durable.Resolve 0 Durable.Stored] = Some w /\
    Durable.trace w
    = [Dispatch 0 act_loading; CacheRead 0 url; Transport 0 url;
       CacheWrite 0 url P; Dispatch 0 (act_fetched P)] /\
    Durable.state w
    = {| data := Some P; error := None; isLoading := Some false |} /\
    Durable.store w = <[url := P]> c /\
    Durable.pending w = ∅ /\
    exists w2,
      Durable.run (Durable.init (Durable.store w))
        [Durable.Render url; Durable.Resolve 0 Durable.Got] = Some w2 /\
      Durable.trace w2
      = if truthy P
        then [Dispatch 0 act_loading; CacheRead 0 url;
              Dispatch 0 (act_fetched P)]
        else [Dispatch 0 act_loading; CacheRead 0 url; Transport 0 url].
Proof.
  intros Hu Hmiss.
  pose (ld := Durable.initialState).
  pose (pe0 := <[0%nat := (url, Durable.AwaitGet)]>
                 (∅ : gmap nat (string * Durable.Stage))).
  pose (pe1 := <[0%nat := (url, Durable.AwaitFetch)]> pe0).
  pose (pe2 := <[0%nat := (url, Durable.AwaitJson)]> pe1).
  pose (pe3 := <[0%nat := (url, Durable.AwaitSet P)]> pe2).
  pose (t0 := [Dispatch 0 act_loading; CacheRead 0 url]).
  pose (t1 := t0 ++ [Transport 0 url]).
  pose (t3 := t1 ++ [CacheWrite 0 url P]).
  pose (w0 := fun s => Durable.MkWorld ld false (Durable.Mounted url) s pe0 1 t0).
  pose (w1 := Durable.MkWorld ld false (Durable.Mounted url) c pe1 1 t1).
  pose (w2 := Durable.MkWorld ld false (Durable.Mounted url) c pe2 1 t1).
  pose (w3 := Durable.MkWorld ld false (Durable.Mounted url) c pe3 1 t3).
  pose (w4 := Durable.MkWorld
                {| data := Some P; error := None; isLoading := Some false |}
                false (Durable.Mounted url) (<[url := P]> c) (delete 0%nat pe3) 1
                (t3 ++ [Dispatch 0 (act_fetched P)])).
  assert (E0 : forall s, Durable.step (Durable.init s) (Durable.Render url)
                         = Some (w0 s)).
  { intros s. unfold Durable.init. DurableFacts.eval_world. now rewrite Hu. }
  assert (E1 : Durable.step (w0 c) (Durable.Resolve 0 Durable.Got) = Some w1).
  { unfold w0. DurableFacts.eval_world. unfold pe0 at 1.
    rewrite lookup_insert_eq, Hmiss. reflexivity. }
  assert (E2 : Durable.step w1 (Durable.Resolve 0 (Durable.Response true st))
               = Some w2).
  { unfold w1. DurableFacts.eval_world. unfold pe1 at 1.
    rewrite lookup_insert_eq. reflexivity. }
  assert (E3 : Durable.step w2 (Durable.Resolve 0 (Durable.Body P)) = Some w3).
  { unfold w2. DurableFacts.eval_world. unfold pe2 at 1.
    rewrite lookup_insert_eq. reflexivity. }
  assert (E4 : Durable.step w3 (Durable.Resolve 0 Durable.Stored) = Some w4).
  { unfold w3. DurableFacts.eval_world. unfold pe3 at 1.
    rewrite lookup_insert_eq. reflexivity. }
  exists w4. split; [cbn [Durable.run]; now rewrite E0, E1, E2, E3, E4|].
  split; [reflexivity|]. split; [reflexivity|]. split; [reflexivity|].
  split.
  { unfold w4. cbn [Durable.pending]. unfold pe3, pe2, pe1, pe0.
    now rewrite !insert_insert_eq, delete_insert_eq, delete_empty. }
  unfold w4 at 1. cbn [Durable.run Durable.store]. rewrite E0.
  unfold w0. DurableFacts.eval_world. unfold pe0 at 1.
  rewrite !lookup_insert_eq. cbn [truthy_lookup].
  destruct (truthy P); eexists; (split; [reflexivity|]); reflexivity.
Qed.

Lemma X7_witness :
  exists w,
    Durable.run (Durable.init ∅)
      [Durable.Render "u"; Durable.Resolve 0 Durable.Got;
       Durable.Resolve 0 (Durable.Response true "OK");
       Durable.Resolve 0 (Durable.Body (JArr []));
       Durable.Resolve 0 Durable.Stored] = Some w /\
    Durable.trace w
    = [Dispatch 0 act_loading; CacheRead 0 "u"; Transport 0 "u";
       CacheWrite 0 "u" (JArr []); Dispatch 0 (act_fetched (JArr []))] /\
    Durable.state w
    = {| data := Some (JArr []); error := None; isLoading := Some false |} /\
    Durable.store w = <[ "u" := JArr [] ]> ∅ /\
    Durable.pending w = ∅ /\
    exists w2,
      Durable.run (Durable.init (Durable.store w))
        [Durable.Render "u"; Durable.Resolve 0 Durable.Got] = Some w2 /\
      Durable.trace w2
      = [Dispatch 0 act_loading; CacheRead 0 "u";
         Dispatch 0 (act_fetched (JArr []))].
Proof.
  apply (X7_durable_fetch_then_revisit ∅ "u" "OK" (JArr []));
    vm_compute; reflexivity.
Defined.

(** * The toggle, the pages and what they render *)

Lemma toggle_repeat n : forall b,
  fold_left useToggle.call (repeat useToggle.toggle n) b = xorb b (Nat.odd n).
Proof.
  induction n as [|n IH]; intros b.
  - cbn. now rewrite xorb_false_r.
  - cbn [repeat fold_left]. rewrite IH. cbn [useToggle.call].
    rewrite Nat.odd_succ, <- Nat.negb_odd. now destruct b, (Nat.odd n).
Qed.

(** X8: [useToggle] starts collapsed unless a default is given, and after
    any calls, [n] further calls of [toggle] leave the value flipped exactly
    when [n] is odd; a [setIsExpanded(value)] makes the value independent of
    everything before it. *)
Theorem X8_toggle_parity :
  useToggle.run None [] = false /\
  (forall d cs n,
     useToggle.run d (cs ++ repeat useToggle.toggle n)
     = xorb (useToggle.run d cs) (Nat.odd n)) /\
  (forall d cs v cs',
     useToggle.run d (cs ++ useToggle.setIsExpanded v :: cs')
     = useToggle.run (Some v) cs').
Proof.
  split; [reflexivity|]. split.
  - intros d cs n. unfold useToggle.run. rewrite fold_left_app.
    apply toggle_repeat.
  - intros d cs v cs'. unfold useToggle.run. now rewrite fold_left_app.
Qed.



Lemma Posts_fetched V :
  Posts {| data := Some V; error := None; isLoading := Some false |}
  = list_view (Some V).
Proof. unfold Posts. cbn. now rewrite andb_false_r. Qed.

Lemma HomePage_fetched V :
  HomePage {| data := Some V; error := None; isLoading := Some false |}
  = list_view (Some V).
Proof. unfold HomePage. cbn. now rewrite andb_false_r. Qed.

Lemma list_view_not_loading d : list_view d <> LoadingView.
Proof. unfold list_view. now destruct (items_of d). Qed.

(** X9: what [Posts] shows is decided by the last action its hook
    dispatched: the empty list before any dispatch (the first render does
    not show "Loading..."), "Loading..." after ['loading'], the error message
    after ['error'], and the list over the payload after ['fetched']. *)
Theorem X9_posts_view_follows_last_dispatch w :
  Volatile.reachable w ->
  Posts (Volatile.state w)
  = match last (dispatched (Volatile.trace w)) with
    | None => ListView []
    | Some act_loading => LoadingView
    | Some (act_fetched payload) => list_view (Some payload)
    | Some (act_error _) => ErrorView
    end.
Proof.
  intros Hreach. rewrite (v_reachable_state w Hreach). unfold state_of_last.
  destruct (last (dispatched (Volatile.trace w))) as [[|payload|e]|];
    try reflexivity.
  apply Posts_fetched.
Qed.

Lemma X9_witness :
  Posts (Volatile.state (Volatile.after ∅ [Volatile.Render (Some "u")]))
  = LoadingView /\
  Posts (Volatile.state (Volatile.after ∅ [Volatile.Render None]))
  = ListView [].
Proof.
  split.
  - etransitivity.
    + apply X9_posts_view_follows_last_dispatch. reached.
    + vm_compute; reflexivity.
  - etransitivity.
    + apply X9_posts_view_follows_last_dispatch. reached.
    + vm_compute; reflexivity.
Defined.

(** X10: [HomePage] never shows "Loading...": its hook never sets
    [isLoading], so while the fetch is in flight the page shows the empty
    list, as it does before any dispatch; after ['error'] it shows the error
    message and after ['fetched'] the list over the payload. *)
Theorem X10_home_page_never_shows_loading w :
  Durable.reachable w ->
  HomePage (Durable.state w) <> LoadingView /\
  HomePage (Durable.state w)
  = match last (dispatched (Durable.trace w)) with
    | None => ListView []
    | Some act_loading => ListView []
    | Some (act_fetched payload) => list_view (Some payload)
    | Some (act_error _) => ErrorView
    end.
Proof.
  intros Hreach.
  assert (Hview : HomePage (Durable.state w)
                  = match last (dispatched (Durable.trace w)) with
                    | None => ListView []
                    | Some act_loading => ListView []
                    | Some (act_fetched payload) => list_view (Some payload)
                    | Some (act_error _) => ErrorView
                    end).
  { rewrite (d_reachable_state w Hreach). unfold state_of_last.
    destruct (last (dispatched (Durable.trace w))) as [[|payload|e]|];
      try reflexivity.
    apply HomePage_fetched. }
  split; [|exact Hview]. rewrite Hview.
  destruct (last (dispatched (Durable.trace w))) as [[|payload|e]|];
    try discriminate.
  apply list_view_not_loading.
Qed.

Lemma X10_witness :
  HomePage (Durable.state (Durable.after ∅ [Durable.Render posts_url]))
  <> LoadingView /\
  HomePage (Durable.state (Durable.after ∅ [Durable.Render posts_url]))
  = ListView [].
Proof.
  split.
  - apply X10_home_page_never_shows_loading. reached.
  - etransitivity.
    + apply X10_home_page_never_shows_loading. reached.
    + vm_compute; reflexivity.
Defined.



Lemma simple_step_inv w ev w' :
  Simple.step w ev = Some w' ->
  Simple.trace w = (if Simple.mounted w then [Transport 0 posts_url] else []) ->
  (Simple.mounted w = false ->
   Simple.pending w = None /\ Simple.data w = JArr []) ->
  (is_Some (Simple.pending w) -> Simple.data w = JArr []) ->
  Simple.trace w' = (if Simple.mounted w' then [Transport 0 posts_url] else []) /\
  (Simple.mounted w' = false ->
   Simple.pending w' = None /\ Simple.data w' = JArr []) /\
  (is_Some (Simple.pending w') -> Simple.data w' = JArr []) /\
  (Simple.data w' = Simple.data w \/ Simple.data w' = JArr [] \/
   ev = Simple.Resolve (Simple.Body (Simple.data w'))).
Proof.
  intros H Ht Hm Hd. destruct w as [d m p t]. cbn in *.
  destruct ev as [|r]; cbn in H.
  - destruct m; [discriminate|]. simplify_eq. cbn.
    destruct (Hm eq_refl) as [_ ->]. repeat split; auto; discriminate.
  - destruct p as [st|]; [|discriminate].
    destruct m; [|destruct (Hm eq_refl); discriminate].
    specialize (Hd ltac:(eauto)). subst d.
    destruct st, r as [[] ?| | |]; cbn in H; simplify_eq; cbn;
      repeat split; auto; try (intros [? ?]; discriminate);
      try discriminate; eauto.
Qed.

Lemma simple_run_inv evs : forall w w',
  Simple.run w evs = Some w' ->
  Simple.trace w = (if Simple.mounted w then [Transport 0 posts_url] else []) ->
  (Simple.mounted w = false ->
   Simple.pending w = None /\ Simple.data w = JArr []) ->
  (is_Some (Simple.pending w) -> Simple.data w = JArr []) ->
  Simple.trace w' = (if Simple.mounted w' then [Transport 0 posts_url] else []) /\
  (is_Some (Simple.pending w') -> Simple.data w' = JArr []) /\
  (Simple.data w' = Simple.data w \/ Simple.data w' = JArr [] \/
   In (Simple.Resolve (Simple.Body (Simple.data w'))) evs).
Proof.
  induction evs as [|ev evs IH]; intros w w' H Ht Hm Hd; cbn in H.
  - simplify_eq. auto.
  - destruct (Simple.step w ev) as [w1|] eqn:E; [|discriminate].
    destruct (simple_step_inv _ _ _ E Ht Hm Hd) as (Ht1 & Hm1 & Hd1 & Hdata1).
    destruct (IH _ _ H Ht1 Hm1 Hd1) as (Ht' & Hd' & Hdata').
    split; [exact Ht'|]. split; [exact Hd'|].
    destruct Hdata' as [Heq|[Hnil|Hin]].
    + rewrite Heq. destruct Hdata1 as [?|[?| ->]]; auto.
      right; right; now left.
    + auto.
    + right; right; now right.
Qed.

(** X12: the page without a cache swallows every failure.  After any run
    from its mount, [Simple] holds the empty list it started with unless a
    body arrived, in which case it holds exactly that body: a non-ok status,
    a rejected fetch and an unparsable body all leave the empty list, and no
    error is shown.  It calls Transport once when it is mounted and never
    again, holds the empty list while the fetch is in flight, and once the
    fetch has settled no further event changes it; over the empty list it
    renders an empty list. *)
Theorem X12_simple_page_swallows_failures :
  (forall evs w,
     Simple.run Simple.init evs = Some w ->
     Simple.trace w
     = (if Simple.mounted w then [Transport 0 posts_url] else []) /\
     (is_Some (Simple.pending w) -> Simple.data w = JArr []) /\
     (Simple.data w = JArr [] \/
      In (Simple.Resolve (Simple.Body (Simple.data w))) evs)) /\
  (forall w st r w',
     Simple.pending w = Some st ->
     Simple.step w (Simple.Resolve r) = Some w' ->
     match r with
     | Simple.Response true _ => Simple.pending w' = Some Simple.AwaitJson
     | Simple.Body d => Simple.data w' = d /\ Simple.pending w' = None
     | _ => Simple.data w' = JArr [] /\ Simple.pending w' = None
     end) /\
  (forall w ev,
     Simple.mounted w = true -> Simple.pending w = None ->
     Simple.step w ev = None) /\
  (forall w, Simple.data w = JArr [] -> Simple.view w = ListView []).
Proof.
  split; [|split; [|split]]; [| | |now intros w Hd; unfold Simple.view; rewrite Hd].
  - intros evs w H.
    assert (Hp : is_Some (Simple.pending Simple.init) ->
                 Simple.data Simple.init = JArr []) by reflexivity.
    destruct (simple_run_inv evs _ _ H eq_refl (fun _ => conj eq_refl eq_refl) Hp)
      as (Ht & Hd & Hdata).
    split; [exact Ht|]. split; [exact Hd|].
    destruct Hdata as [?|[?|?]]; auto.
  - intros w st r w' Hp H. cbn in H. rewrite Hp in H.
    destruct st, r as [[] ?| | |]; cbn in H; simplify_eq; cbn; auto.
  - intros w ev Hm Hp. destruct ev; cbn; [now rewrite Hm | now rewrite Hp].
Qed.

Lemma X12_witness :
  (let w := default Simple.init
              (Simple.run Simple.init
                 [Simple.Mount; Simple.Resolve (Simple.Response true "OK");
                  Simple.Resolve (Simple.BodyRejected (MkError "Unexpected token"))]) in
   Simple.trace w = [Transport 0 posts_url] /\
   (is_Some (Simple.pending w) -> Simple.data w = JArr []) /\
   (Simple.data w = JArr [] \/
    In (Simple.Resolve (Simple.Body (Simple.data w)))
      [Simple.Mount; Simple.Resolve (Simple.Response true "OK");
       Simple.Resolve (Simple.BodyRejected (MkError "Unexpected token"))])) /\
  (let w := default Simple.init (Simple.run Simple.init [Simple.Mount]) in
   forall w',
     Simple.step w (Simple.Resolve (Simple.Response false "Not Found")) = Some w' ->
     Simple.data w' = JArr [] /\ Simple.pending w' = None) /\
  Simple.step
    (default Simple.init
       (Simple.run Simple.init
          [Simple.Mount; Simple.Resolve (Simple.Response false "Not Found")]))
    Simple.Mount = None /\
  Simple.view
    (default Simple.init
       (Simple.run Simple.init
          [Simple.Mount; Simple.Resolve (Simple.Response false "Not Found")]))
  = ListView [].
Proof.
  split; [|split; [|split]];
    [| | |apply (proj2 (proj2 (proj2 X12_simple_page_swallows_failures)));
          reflexivity].
  - intros w.
    apply (proj1 X12_simple_page_swallows_failures
             [Simple.Mount; Simple.Resolve (Simple.Response true "OK");
              Simple.Resolve (Simple.BodyRejected (MkError "Unexpected token"))]
             w).
    reflexivity.
  - intros w w' H.
    apply (proj1 (proj2 X12_simple_page_swallows_failures) w Simple.AwaitFetch
             (Simple.Response false "Not Found") w' eq_refl H).
  - apply (proj1 (proj2 (proj2 X12_simple_page_swallows_failures)));
      reflexivity.
Defined.

(** ** PostsPage *)

Lemma v_resolve_frame w op r w' :
  Volatile.step w (Volatile.Resolve op r) = Some w' ->
  Volatile.phase w' = Volatile.phase w /\
  Volatile.cancelRequest w' = Volatile.cancelRequest w.
Proof.
  intros H. destruct w as [s c p ca pe n t].
  VolatileFacts.step_cases H; now split.
Qed.

Lemma v_unmount_frame w w' :
  Volatile.step w Volatile.Unmount = Some w' ->
  Volatile.phase w' = Volatile.Disposed /\
  Volatile.state w' = Volatile.state w /\
  Volatile.trace w' = Volatile.trace w /\
  Volatile.cache w' = Volatile.cache w /\
  Volatile.pending w' = Volatile.pending w.
Proof.
  intros H. destruct w as [s c p ca pe n t].
  VolatileFacts.step_cases H; repeat split.
Qed.

Lemma posts_url_truthy : truthy_url (Some posts_url) = Some posts_url.
Proof. reflexivity. Qed.

(** A new [Posts] over the cache [c]: served from the cache, or suspended
    at its fetch. *)
Lemma v_mount_posts c :
  exists p,
    Volatile.step (Volatile.init c) (Volatile.Render (Some posts_url)) = Some p /\
    Volatile.phase p = Volatile.Mounted (Some posts_url) true /\
    match truthy_lookup (c !! posts_url) with
    | Some V =>
        PostsPage.served_from_cache V p /\ Volatile.pending p = ∅ /\
        Volatile.cache p = c
    | None =>
        Volatile.trace p
        = [Dispatch 0 act_loading; CacheRead 0 posts_url; Transport 0 posts_url] /\
        Volatile.state p
        = {| data := None; error := None; isLoading := Some true |} /\
        Volatile.pending p = {[ 0%nat := (posts_url, Volatile.AwaitFetch) ]} /\
        Volatile.cache p = c
    end.
Proof.
  eexists. split; [reflexivity|].
  unfold Volatile.effect. rewrite posts_url_truthy.
  unfold Volatile.fetchData. cbv zeta.
  change (Volatile.cache _ !! posts_url) with (c !! posts_url).
  destruct (truthy_lookup (c !! posts_url)) as [V|]; repeat split.
Qed.

Ltac page_proj :=
  cbn [PostsPage.isExpanded PostsPage.instances PostsPage.cache
       useToggle.call negb andb] in *.

Lemma p_reachable_ind (P : PostsPage.World -> Prop) :
  (forall c, P (PostsPage.init c)) ->
  (forall w ev w', P w -> PostsPage.step w ev = Some w' -> P w') ->
  forall w, PostsPage.reachable w -> P w.
Proof.
  intros Hinit Hstep w (c & evs & Hr).
  assert (Hgen : forall evs w0 w1,
            P w0 -> PostsPage.run w0 evs = Some w1 -> P w1).
  { clear - Hstep. induction evs as [|ev evs IH]; intros w0 w1 H0 H; cbn in H.
    - now simplify_eq.
    - destruct (PostsPage.step w0 ev) as [w2|] eqn:E; [|discriminate]. eauto. }
  eapply Hgen; [apply Hinit | exact Hr].
Qed.

Lemma p_step_tidy w ev w' :
  PostsPage.tidy w -> PostsPage.step w ev = Some w' -> PostsPage.tidy w'.
Proof.
  intros Ht H. destruct w as [ex c ins]. unfold PostsPage.tidy in *.
  page_proj.
  destruct ev as [|i op r]; unfold PostsPage.step in H; page_proj.
  - destruct ex.
    + destruct (last ins) as [p|] eqn:El; [|discriminate].
      unfold PostsPage.step_instance in H.
      destruct (Volatile.step _ Volatile.Unmount) as [p'|] eqn:E; [|discriminate].
      simplify_eq. page_proj. intros i q Hq.
      apply v_unmount_frame in E as (Hp & _).
      destruct (decide (i = pred (length ins))) as [->|Hne].
      * rewrite list_lookup_insert_eq in Hq; [now simplify_eq|].
        destruct ins; [discriminate|cbn; lia].
      * rewrite list_lookup_insert_ne in Hq by congruence.
        specialize (Ht i q Hq). page_proj.
        destruct (Nat.eqb_spec (S i) (length ins)); [lia|exact Ht].
    + destruct (v_mount_posts c) as (p & Hs & Hp & _).
      unfold PostsPage.step_instance in H.
      replace (Volatile.set_cache c (Volatile.init c))
        with (Volatile.init c) in H by reflexivity.
      rewrite Hs in H. simplify_eq. page_proj. intros i q Hq.
      rewrite length_app. cbn [length].
      apply lookup_app_Some in Hq as [Hq|[Hge Hq]].
      * pose proof (lookup_lt_Some _ _ _ Hq).
        specialize (Ht i q Hq). page_proj.
        destruct (Nat.eqb_spec (S i) (length ins + 1)); [lia|exact Ht].
      * apply list_lookup_singleton_Some in Hq as [Hi ->].
        destruct (Nat.eqb_spec (S i) (length ins + 1)); [exact Hp|lia].
  - destruct (ins !! i) as [p|] eqn:Ei; [|discriminate].
    unfold PostsPage.step_instance in H.
    destruct (Volatile.step _ (Volatile.Resolve op r)) as [p'|] eqn:E;
      [|discriminate].
    simplify_eq. page_proj. rewrite length_insert. intros j q Hq.
    apply v_resolve_frame in E as [Hp _]. cbn in Hp.
    destruct (decide (j = i)) as [->|Hne].
    + rewrite list_lookup_insert_eq in Hq by (eapply lookup_lt_Some; eauto).
      simplify_eq. rewrite Hp. apply (Ht i p Ei).
    + rewrite list_lookup_insert_ne in Hq by congruence. apply (Ht j q Hq).
Qed.

(** X13: [PostsPage] keeps [Posts] on screen exactly while it is expanded.
    Of all the [Posts] instances the page has mounted, the last one is still
    mounted, with the posts identifier, when the page is expanded; every
    other one, and all of them when the page is collapsed, has been
    unmounted, so its cleanup has run. *)
Theorem X13_posts_mounted_iff_expanded w :
  PostsPage.reachable w ->
  forall i p,
    PostsPage.instances w !! i = Some p ->
    if PostsPage.isExpanded w && Nat.eqb (S i) (length (PostsPage.instances w))
    then Volatile.phase p = Volatile.Mounted (Some posts_url) true
    else Volatile.phase p = Volatile.Disposed.
Proof.
  revert w.
  apply (p_reachable_ind PostsPage.tidy).
  - intros c i p Hp. discriminate Hp.
  - intros w ev w' Ht H. eapply p_step_tidy; eassumption.
Qed.

Lemma X13_witness :
  Volatile.phase
    (default (Volatile.init ∅)
       (PostsPage.instances
          (default (PostsPage.init ∅)
             (PostsPage.run (PostsPage.init ∅)
                [PostsPage.Click; PostsPage.Click; PostsPage.Click]))
        !! 0%nat))
  = Volatile.Disposed.
Proof.
  set (w := default (PostsPage.init ∅)
              (PostsPage.run (PostsPage.init ∅)
                 [PostsPage.Click; PostsPage.Click; PostsPage.Click])).
  assert (Hreach : PostsPage.reachable w).
  { exists ∅, [PostsPage.Click; PostsPage.Click; PostsPage.Click].
    vm_compute; reflexivity. }
  assert (Hp : PostsPage.instances w !! 0%nat
               = Some (default (Volatile.init ∅)
                         (PostsPage.instances w !! 0%nat))).
  { vm_compute; reflexivity. }
  pose proof (X13_posts_mounted_iff_expanded w Hreach 0%nat _ Hp) as H.
  vm_compute in H |- *. exact H.
Defined.

Lemma p_steady_refl V w : PostsPage.quiet w -> PostsPage.steady V w w.
Proof.
  intros Hq. unfold PostsPage.steady. repeat split; auto.
  - intros H1 H2. congruence.
  - intros i p Hp. pose proof (lookup_lt_Some _ _ _ Hp).
    case_decide; [|lia]. eauto.
Qed.

Lemma p_step_steady V w0 w ev w' :
  PostsPage.cache w0 !! posts_url = Some V -> truthy V = true ->
  PostsPage.steady V w0 w -> PostsPage.step w ev = Some w' ->
  PostsPage.steady V w0 w'.
Proof.
  intros Hc HV (Hca & Hq & Hlen & Hex & Hins) H.
  destruct w as [ex c ins]. destruct w0 as [ex0 c0 ins0].
  unfold PostsPage.steady, PostsPage.quiet in *. page_proj. subst c.
  destruct ev as [|i op r]; unfold PostsPage.step in H; page_proj.
  - destruct ex.
    + destruct (last ins) as [p|] eqn:El; [|discriminate].
      unfold PostsPage.step_instance in H.
      destruct (Volatile.step _ Volatile.Unmount) as [p'|] eqn:E; [|discriminate].
      simplify_eq. page_proj.
      apply v_unmount_frame in E as (_ & Hst & Htr & Hcache & Hpe).
      cbn in Hst, Htr, Hcache, Hpe.
      rewrite last_lookup in El.
      split; [exact Hcache|]. split.
      { apply Forall_insert; [exact Hq|]. rewrite Hpe.
        eapply (proj1 (Forall_lookup _ _) Hq); eauto. }
      rewrite length_insert. split; [exact Hlen|]. split; [discriminate|].
      intros i q Hq'.
      destruct (decide (i = pred (length ins))) as [->|Hne].
      * rewrite list_lookup_insert_eq in Hq' by (eapply lookup_lt_Some; eauto).
        simplify_eq. specialize (Hins _ _ El).
        case_decide.
        -- destruct Hins as (p0 & ? & ? & ?). exists p0.
           repeat split; congruence.
        -- destruct Hins as [? ?]. split; congruence.
      * rewrite list_lookup_insert_ne in Hq' by congruence. now apply Hins.
    + destruct (v_mount_posts c0) as (p & Hs & Hp & Hhit).
      rewrite (truthy_lookup_hit _ _ Hc HV) in Hhit.
      destruct Hhit as (Hserved & Hpe & Hcache).
      unfold PostsPage.step_instance in H.
      replace (Volatile.set_cache c0 (Volatile.init c0))
        with (Volatile.init c0) in H by reflexivity.
      rewrite Hs in H. injection H as <-. page_proj.
      split; [exact Hcache|]. split.
      { apply Forall_app. split; [exact Hq|]. now constructor. }
      rewrite length_app. cbn [length].
      split; [lia|]. split; [lia|].
      intros i q Hq'.
      apply lookup_app_Some in Hq' as [Hq'|[Hge Hq']].
      * now apply Hins.
      * apply list_lookup_singleton_Some in Hq' as [Hi ->].
        case_decide; [lia|exact Hserved].
  - destruct (ins !! i) as [p|] eqn:Ei; [|discriminate].
    unfold PostsPage.step_instance in H.
    pose proof (proj1 (Forall_lookup _ _) Hq _ _ Ei) as Hpe.
    cbn in H. rewrite Hpe, lookup_empty in H. discriminate.
Qed.

Lemma p_run_steady V evs : forall w0 w w',
  PostsPage.cache w0 !! posts_url = Some V -> truthy V = true ->
  PostsPage.steady V w0 w -> PostsPage.run w evs = Some w' ->
  PostsPage.steady V w0 w'.
Proof.
  induction evs as [|ev evs IH]; intros w0 w w' Hc HV Hs H; cbn in H.
  - now simplify_eq.
  - destruct (PostsPage.step w ev) as [w1|] eqn:E; [|discriminate].
    eapply IH; [exact Hc | exact HV | | exact H].
    eapply p_step_steady; eassumption.
Qed.

(** X14: once the cache holds a truthy value V for the posts identifier
    and no fetch is in flight, [PostsPage] never fetches again, however
    often it is collapsed and expanded: the cache stays as it is, every
    [Posts] mounted from then on dispatches ['loading'] and ['fetched'] with
    V in its first effect run without a Transport call, the earlier
    instances keep their trace and state, and a page that was collapsed
    shows the list over V whenever it is expanded. *)
Theorem X14_posts_page_never_refetches w V evs w' :
  PostsPage.cache w !! posts_url = Some V ->
  truthy V = true ->
  PostsPage.quiet w ->
  PostsPage.run w evs = Some w' ->
  PostsPage.steady V w w' /\
  (PostsPage.isExpanded w = false ->
   PostsPage.view w'
   = if PostsPage.isExpanded w' then Some (list_view (Some V)) else None).
Proof.
  intros Hc HV Hq H.
  pose proof (p_run_steady V evs w w w' Hc HV (p_steady_refl V w Hq) H) as Hs.
  split; [exact Hs|]. intros Hex0.
  destruct Hs as (_ & _ & Hlen & Hex & Hins).
  unfold PostsPage.view.
  destruct (PostsPage.isExpanded w') eqn:Ex; [|reflexivity].
  specialize (Hex Hex0 eq_refl).
  rewrite last_lookup.
  destruct (PostsPage.instances w' !! pred (length (PostsPage.instances w')))
    as [p|] eqn:El.
  - specialize (Hins _ _ El). case_decide; [lia|].
    destruct Hins as [_ ->]. now rewrite Posts_fetched.
  - apply lookup_ge_None in El. lia.
Qed.

Lemma X14_witness :
  let w := PostsPage.init {[ posts_url := JArr [] ]} in
  let w' := default w
              (PostsPage.run w
                 [PostsPage.Click; PostsPage.Click; PostsPage.Click]) in
  PostsPage.steady (JArr []) w w' /\
  (PostsPage.isExpanded w = false ->
   PostsPage.view w' = Some (ListView [])).
Proof.
  intros w w'.
  apply (X14_posts_page_never_refetches w (JArr [])
           [PostsPage.Click; PostsPage.Click; PostsPage.Click] w').
  - vm_compute; reflexivity.
  - reflexivity.
  - constructor.
  - vm_compute; reflexivity.
Defined.

Ltac page_eval :=
  cbv beta iota zeta delta
    [PostsPage.step PostsPage.step_instance PostsPage.init
     PostsPage.isExpanded PostsPage.cache PostsPage.instances
     useToggle.initial useToggle.call negb Volatile.init app last
     length pred];
  VolatileFacts.eval_world;
  rewrite ?posts_url_truthy.

(** X15: [Posts] hidden while its fetch is in flight.  The page is
    expanded over a cache without a truthy entry for the posts identifier
    and collapsed again before Transport answers; the response and the
    body V then arrive.  The unmounted instance dispatches nothing more (its
    state stays at ['loading']), yet the body is written to the shared cache
    and no fetch is left in flight. *)
Theorem X15_posts_hidden_in_flight_fills_cache c st V :
  truthy_lookup (c !! posts_url) = None ->
  exists w p,
    PostsPage.run (PostsPage.init c)
      [PostsPage.Click; PostsPage.Click;
       PostsPage.Settle 0 0 (Volatile.Response true st);
       PostsPage.Settle 0 0 (Volatile.Body V)] = Some w /\
    PostsPage.isExpanded w = false /\
    PostsPage.view w = None /\
    PostsPage.cache w = <[posts_url := V]> c /\
    PostsPage.quiet w /\
    PostsPage.instances w = [p] /\
    Volatile.trace p
    = [Dispatch 0 act_loading; CacheRead 0 posts_url; Transport 0 posts_url;
       CacheWrite 0 posts_url V] /\
    Volatile.state p = {| data := None; error := None; isLoading := Some true |}.
Proof.
  intros Hmiss.
  pose (tr := [Dispatch 0 act_loading; CacheRead 0 posts_url;
               Transport 0 posts_url]).
  pose (ld := {| data := None; error := None; isLoading := Some true |}).
  pose (pe0 := <[0%nat := (posts_url, Volatile.AwaitFetch)]>
                 (∅ : gmap nat (string * Volatile.Stage))).
  pose (pe1 := <[0%nat := (posts_url, Volatile.AwaitJson)]> pe0).
  pose (p0 := Volatile.MkWorld ld false (Volatile.Mounted (Some posts_url) true)
                c pe0 1 tr).
  pose (p1 := Volatile.MkWorld ld true Volatile.Disposed c pe0 1 tr).
  pose (p2 := Volatile.MkWorld ld true Volatile.Disposed c pe1 1 tr).
  pose (p3 := Volatile.MkWorld ld true Volatile.Disposed
                (<[posts_url := V]> c) (delete 0%nat pe1) 1
                (tr ++ [CacheWrite 0 posts_url V])).
  assert (E1 : PostsPage.step (PostsPage.init c) PostsPage.Click
               = Some (PostsPage.MkWorld true c [p0])).
  { page_eval. rewrite Hmiss. reflexivity. }
  assert (E2 : PostsPage.step (PostsPage.MkWorld true c [p0]) PostsPage.Click
               = Some (PostsPage.MkWorld false c [p1])).
  { reflexivity. }
  assert (E3 : PostsPage.step (PostsPage.MkWorld false c [p1])
                 (PostsPage.Settle 0 0 (Volatile.Response true st))
               = Some (PostsPage.MkWorld false c [p2])).
  { subst p1 p2 pe1. page_eval. cbn [lookup list_lookup].
    unfold pe0 at 1. rewrite lookup_insert_eq. reflexivity. }
  assert (E4 : PostsPage.step (PostsPage.MkWorld false c [p2])
                 (PostsPage.Settle 0 0 (Volatile.Body V))
               = Some (PostsPage.MkWorld false (<[posts_url := V]> c) [p3])).
  { subst p2 p3. page_eval. cbn [lookup list_lookup].
    unfold pe1 at 1. rewrite lookup_insert_eq. reflexivity. }
  exists (PostsPage.MkWorld false (<[posts_url := V]> c) [p3]), p3.
  split; [cbn [PostsPage.run]; now rewrite E1, E2, E3, E4|].
  repeat split.
  constructor; [|constructor]. cbn. subst pe1 pe0.
  now rewrite insert_insert_eq, delete_insert_eq, delete_empty.
Qed.

Lemma X15_witness :
  exists w p,
    PostsPage.run (PostsPage.init ∅)
      [PostsPage.Click; PostsPage.Click;
       PostsPage.Settle 0 0 (Volatile.Response true "OK");
       PostsPage.Settle 0 0 (Volatile.Body (JArr []))] = Some w /\
    PostsPage.isExpanded w = false /\
    PostsPage.view w = None /\
    PostsPage.cache w = <[posts_url := JArr []]> ∅ /\
    PostsPage.quiet w /\
    PostsPage.instances w = [p] /\
    Volatile.trace p
    = [Dispatch 0 act_loading; CacheRead 0 posts_url; Transport 0 posts_url;
       CacheWrite 0 posts_url (JArr [])] /\
    Volatile.state p = {| data := None; error := None; isLoading := Some true |}.
Proof.
  apply (X15_posts_hidden_in_flight_fills_cache ∅ "OK" (JArr [])).
  vm_compute; reflexivity.
Defined.

(** X16: [Posts] shown again while the fetch of the hidden instance is
    still in flight.  Over a cache without a truthy entry the page is
    expanded, collapsed and expanded again before Transport answers: the
    second instance misses the cache too and calls Transport itself.  When
    the second fetch settles with body V1 and the first one afterwards with
    body V0, the page shows the list over V1 while the shared cache holds
    V0: the late body of the unmounted instance is dispatched nowhere but
    overwrites the newer cache entry. *)
Theorem X16_late_body_overwrites_cache c st V0 V1 :
  truthy_lookup (c !! posts_url) = None ->
  exists w p q,
    PostsPage.run (PostsPage.init c)
      [PostsPage.Click; PostsPage.Click; PostsPage.Click;
       PostsPage.Settle 1 0 (Volatile.Response true st);
       PostsPage.Settle 1 0 (Volatile.Body V1);
       PostsPage.Settle 0 0 (Volatile.Response true st);
       PostsPage.Settle 0 0 (Volatile.Body V0)] = Some w /\
    PostsPage.instances w = [p; q] /\
    transports 0 (Volatile.trace p) = [posts_url] /\
    transports 0 (Volatile.trace q) = [posts_url] /\
    dispatches 0 (Volatile.trace p) = [act_loading] /\
    dispatches 0 (Volatile.trace q) = [act_loading; act_fetched V1] /\
    PostsPage.view w = Some (list_view (Some V1)) /\
    PostsPage.cache w !! posts_url = Some V0.
Proof.
  intros Hmiss.
  pose (tr := [Dispatch 0 act_loading; CacheRead 0 posts_url;
               Transport 0 posts_url]).
  pose (ld := {| data := None; error := None; isLoading := Some true |}).
  pose (pe0 := <[0%nat := (posts_url, Volatile.AwaitFetch)]>
                 (∅ : gmap nat (string * Volatile.Stage))).
  pose (pe1 := <[0%nat := (posts_url, Volatile.AwaitJson)]> pe0).
  pose (c1 := <[posts_url := V1]> c).
  pose (on := Volatile.Mounted (Some posts_url) true).
  pose (p0 := Volatile.MkWorld ld false on c pe0 1 tr).
  pose (p1 := Volatile.MkWorld ld true Volatile.Disposed c pe0 1 tr).
  pose (p2 := Volatile.MkWorld ld true Volatile.Disposed c1 pe1 1 tr).
  pose (p3 := Volatile.MkWorld ld true Volatile.Disposed
                (<[posts_url := V0]> c1) (delete 0%nat pe1) 1
                (tr ++ [CacheWrite 0 posts_url V0])).
  pose (q1 := Volatile.MkWorld ld false on c pe1 1 tr).
  pose (q2 := Volatile.MkWorld
                {| data := Some V1; error := None; isLoading := Some false |}
                false on c1 (delete 0%nat pe1) 1
                ((tr ++ [CacheWrite 0 posts_url V1])
                   ++ [Dispatch 0 (act_fetched V1)])).
  assert (E1 : PostsPage.step (PostsPage.init c) PostsPage.Click
               = Some (PostsPage.MkWorld true c [p0])).
  { page_eval. rewrite Hmiss. reflexivity. }
  assert (E2 : PostsPage.step (PostsPage.MkWorld true c [p0]) PostsPage.Click
               = Some (PostsPage.MkWorld false c [p1])).
  { reflexivity. }
  assert (E3 : PostsPage.step (PostsPage.MkWorld false c [p1]) PostsPage.Click
               = Some (PostsPage.MkWorld true c [p1; p0])).
  { page_eval. rewrite Hmiss. reflexivity. }
  assert (E4 : PostsPage.step (PostsPage.MkWorld true c [p1; p0])
                 (PostsPage.Settle 1 0 (Volatile.Response true st))
               = Some (PostsPage.MkWorld true c [p1; q1])).
  { subst p0 q1 pe1. page_eval. cbn [lookup list_lookup].
    unfold pe0 at 1. rewrite lookup_insert_eq. reflexivity. }
  assert (E5 : PostsPage.step (PostsPage.MkWorld true c [p1; q1])
                 (PostsPage.Settle 1 0 (Volatile.Body V1))
               = Some (PostsPage.MkWorld true c1 [p1; q2])).
  { subst q1 q2. page_eval. cbn [lookup list_lookup].
    unfold pe1 at 1. rewrite lookup_insert_eq. reflexivity. }
  assert (E6 : PostsPage.step (PostsPage.MkWorld true c1 [p1; q2])
                 (PostsPage.Settle 0 0 (Volatile.Response true st))
               = Some (PostsPage.MkWorld true c1 [p2; q2])).
  { subst p1 p2 pe1. page_eval. cbn [lookup list_lookup].
    unfold pe0 at 1. rewrite lookup_insert_eq. reflexivity. }
  assert (E7 : PostsPage.step (PostsPage.MkWorld true c1 [p2; q2])
                 (PostsPage.Settle 0 0 (Volatile.Body V0))
               = Some (PostsPage.MkWorld true (<[posts_url := V0]> c1) [p3; q2])).
  { subst p2 p3. page_eval. cbn [lookup list_lookup].
    unfold pe1 at 1. rewrite lookup_insert_eq. reflexivity. }
  exists (PostsPage.MkWorld true (<[posts_url := V0]> c1) [p3; q2]), p3, q2.
  split; [cbn [PostsPage.run]; now rewrite E1, E2, E3, E4, E5, E6, E7|].
  repeat split.
  - unfold PostsPage.view. cbn [PostsPage.isExpanded PostsPage.instances last].
    unfold q2. cbn [Volatile.state]. now rewrite Posts_fetched.
  - cbn [PostsPage.cache]. apply lookup_insert_eq.
Qed.

Lemma X16_witness :
  exists w p q,
    PostsPage.run (PostsPage.init ∅)
      [PostsPage.Click; PostsPage.Click; PostsPage.Click;
       PostsPage.Settle 1 0 (Volatile.Response true "OK");
       PostsPage.Settle 1 0 (Volatile.Body (JArr [JObj []]));
       PostsPage.Settle 0 0 (Volatile.Response true "OK");
       PostsPage.Settle 0 0 (Volatile.Body (JArr []))] = Some w /\
    PostsPage.instances w = [p; q] /\
    transports 0 (Volatile.trace p) = [posts_url] /\
    transports 0 (Volatile.trace q) = [posts_url] /\
    dispatches 0 (Volatile.trace p) = [act_loading] /\
    dispatches 0 (Volatile.trace q) = [act_loading; act_fetched (JArr [JObj []])] /\
    PostsPage.view w = Some (list_view (Some (JArr [JObj []]))) /\
    PostsPage.cache w !! posts_url = Some (JArr []).
Proof.
  apply (X16_late_body_overwrites_cache ∅ "OK" (JArr []) (JArr [JObj []])).
  vm_compute; reflexivity.
Defined.
